(** * PHINEAS: result aggregation and workflow execution

    A shallow embedding of [core/result_aggregator.py] and
    [core/orchestrator.py], with the properties of the collection pipeline
    stated and proved over it.

    Python objects are modelled as follows.
    - [str] is a [string] whose characters are the code points 0..255;
      [lower] and [strip] follow Python on that range.
    - A [dict] is a heap object: values hold a reference [VRef l] into a
      [store], so that writing [profile['source'] = ...] is visible through
      every alias of the record, as it is in Python.
    - Sets of strings are [gset string], the [defaultdict(list)] of sources
      is a [gmap string (list string)].
    - Code that can raise runs in a state-and-exception monad; an exception
      leaves the state as it was when raised. *)

From Stdlib Require Import ZArith Ascii String List DecimalString.
From stdpp Require Import base gmap sets list strings sorting.

Set Warnings "-register-all".

(** ** Strings *)

Module PyStr.

(** [str.isspace] on code points below 256. *)
Definition isspace (c : ascii) : bool :=
  let n := N_of_ascii c in
  ((9 <=? n) && (n <=? 13) || (28 <=? n) && (n <=? 32)
   || (n =? 133) || (n =? 160))%N.

(** [str.lower] on one code point below 256: A-Z and the Latin-1 capitals
    (all of U+00C0..U+00DE but the multiplication sign). *)
Definition lower_char (c : ascii) : ascii :=
  let n := N_of_ascii c in
  if ((65 <=? n) && (n <=? 90)
      || (192 <=? n) && (n <=? 222) && negb (n =? 215))%N
  then ascii_of_N (n + 32) else c.

Fixpoint lower (s : string) : string :=
  match s with
  | EmptyString => EmptyString
  | String c s' => String (lower_char c) (lower s')
  end.

Fixpoint lstrip (s : string) : string :=
  match s with
  | EmptyString => EmptyString
  | String c s' => if isspace c then lstrip s' else s
  end.

Fixpoint rstrip (s : string) : string :=
  match s with
  | EmptyString => EmptyString
  | String c s' =>
      match rstrip s' with
      | EmptyString => if isspace c then EmptyString else String c EmptyString
      | r => String c r
      end
  end.

Definition strip (s : string) : string := rstrip (lstrip s).

(** [sub in s] for two strings. *)
Fixpoint contains (sub s : string) : bool :=
  String.prefix sub s
  || match s with
     | EmptyString => false
     | String _ s' => contains sub s'
     end.

(** [s.replace(c, by)] for a one-character pattern. *)
Fixpoint replace_char (c : ascii) (by_ : string) (s : string) : string :=
  match s with
  | EmptyString => EmptyString
  | String x s' =>
      (if Ascii.eqb x c then by_ else String x EmptyString)
        +:+ replace_char c by_ s'
  end.

(** Every character of the string is white space. *)
Fixpoint blank (s : string) : bool :=
  match s with
  | EmptyString => true
  | String c s' => isspace c && blank s'
  end.

End PyStr.

(** ** Values, heap objects and exceptions *)

(** A location of the heap. *)
Abbreviation loc := nat.

Inductive value :=
| VNone
| VBool (b : bool)
| VInt (n : Z)
| VStr (s : string)
| VList (items : list value)
| VRef (l : loc).

Abbreviation dict := (gmap string value).
Abbreviation store := (list dict).

(** An element of a list the program owns: a dict that came in by reference,
    or a dict literal the program built itself (never aliased). *)
Inductive entry :=
| Shared (l : loc)
| Fresh (d : dict).

Definition resolve (σ : store) (e : entry) : option dict :=
  match e with
  | Shared l => σ !! l
  | Fresh d => Some d
  end.

(** [Unmodelled] is not a Python exception: the input left the fragment of
    Python values the embedding covers (a reference to no object, or the
    [repr] of a container inside a format string). *)
Inductive exn :=
| AttributeError
| TypeError
| Unmodelled.

Inductive res (A : Type) :=
| Ok (a : A)
| Raise (e : exn).
Arguments Ok {A} a.
Arguments Raise {A} e.

Definition M (S A : Type) : Type := S → S * res A.

Definition ret {S A} (a : A) : M S A := λ s, (s, Ok a).
Definition raise {S A} (e : exn) : M S A := λ s, (s, Raise e).
Definition bind {S A B} (m : M S A) (k : A → M S B) : M S B :=
  λ s, match m s with
       | (s', Ok a) => k a s'
       | (s', Raise e) => (s', Raise e)
       end.

Notation "'let*' x ':=' m 'in' k" := (bind m (λ x, k))
  (at level 10, x name, m at level 100, k at level 200, right associativity).
Notation "m1 '>>' m2" := (bind m1 (λ _, m2))
  (at level 100, m2 at level 200, right associativity).

(** [for x in xs: body(x)] *)
Fixpoint for_each {S A} (xs : list A) (body : A → M S unit) : M S unit :=
  match xs with
  | [] => ret tt
  | x :: xs' => body x >> for_each xs' body
  end.

(** [str(v)], as a format string computes it for [{v}]. *)
Definition format (v : value) : res string :=
  match v with
  | VStr s => Ok s
  | VNone => Ok "None"
  | VBool true => Ok "True"
  | VBool false => Ok "False"
  | VInt n => Ok (NilZero.string_of_int (Z.to_int n))
  | VList _ | VRef _ => Raise Unmodelled
  end.

(** [x if isinstance(x, list) else [x]] *)
Definition as_list (v : value) : list value :=
  match v with
  | VList items => items
  | _ => [v]
  end.

Definition is_str (s : string) (v : value) : bool :=
  match v with
  | VStr s' => String.eqb s s'
  | _ => false
  end.

(** ** The result aggregator ([core/result_aggregator.py]) *)

Module Aggregator.

(** One element of [self.raw_results]; the time stamp is the index of the
    clock reading that produced it. *)
Record raw_result := RawResult {
  rr_plugin : string;
  rr_timestamp : nat;
  rr_result : value
}.

(** [self.raw_results], the entries of [self.aggregated], and
    [self.sources]. *)
Record aggregator := Aggregator {
  raw_results : list raw_result;
  emails : gset string;
  usernames : gset string;
  domains : gset string;
  subdomains : gset string;
  phone_numbers : gset string;
  urls : gset string;
  social_profiles : list entry;
  breaches : list entry;
  accounts : list entry;
  metadata : dict;
  sources : gmap string (list string)
}.

(** [ResultAggregator.__init__] *)
Definition init : aggregator :=
  Aggregator [] ∅ ∅ ∅ ∅ ∅ ∅ [] [] [] ∅ ∅.

Definition with_raw_results f (a : aggregator) : aggregator :=
  Aggregator (f (raw_results a)) (emails a) (usernames a) (domains a)
    (subdomains a) (phone_numbers a) (urls a) (social_profiles a)
    (breaches a) (accounts a) (metadata a) (sources a).
Definition with_emails f (a : aggregator) : aggregator :=
  Aggregator (raw_results a) (f (emails a)) (usernames a) (domains a)
    (subdomains a) (phone_numbers a) (urls a) (social_profiles a)
    (breaches a) (accounts a) (metadata a) (sources a).
Definition with_usernames f (a : aggregator) : aggregator :=
  Aggregator (raw_results a) (emails a) (f (usernames a)) (domains a)
    (subdomains a) (phone_numbers a) (urls a) (social_profiles a)
    (breaches a) (accounts a) (metadata a) (sources a).
Definition with_domains f (a : aggregator) : aggregator :=
  Aggregator (raw_results a) (emails a) (usernames a) (f (domains a))
    (subdomains a) (phone_numbers a) (urls a) (social_profiles a)
    (breaches a) (accounts a) (metadata a) (sources a).
Definition with_subdomains f (a : aggregator) : aggregator :=
  Aggregator (raw_results a) (emails a) (usernames a) (domains a)
    (f (subdomains a)) (phone_numbers a) (urls a) (social_profiles a)
    (breaches a) (accounts a) (metadata a) (sources a).
Definition with_phone_numbers f (a : aggregator) : aggregator :=
  Aggregator (raw_results a) (emails a) (usernames a) (domains a)
    (subdomains a) (f (phone_numbers a)) (urls a) (social_profiles a)
    (breaches a) (accounts a) (metadata a) (sources a).
Definition with_urls f (a : aggregator) : aggregator :=
  Aggregator (raw_results a) (emails a) (usernames a) (domains a)
    (subdomains a) (phone_numbers a) (f (urls a)) (social_profiles a)
    (breaches a) (accounts a) (metadata a) (sources a).
Definition with_social_profiles f (a : aggregator) : aggregator :=
  Aggregator (raw_results a) (emails a) (usernames a) (domains a)
    (subdomains a) (phone_numbers a) (urls a) (f (social_profiles a))
    (breaches a) (accounts a) (metadata a) (sources a).
Definition with_breaches f (a : aggregator) : aggregator :=
  Aggregator (raw_results a) (emails a) (usernames a) (domains a)
    (subdomains a) (phone_numbers a) (urls a) (social_profiles a)
    (f (breaches a)) (accounts a) (metadata a) (sources a).
Definition with_accounts f (a : aggregator) : aggregator :=
  Aggregator (raw_results a) (emails a) (usernames a) (domains a)
    (subdomains a) (phone_numbers a) (urls a) (social_profiles a)
    (breaches a) (f (accounts a)) (metadata a) (sources a).
Definition with_sources f (a : aggregator) : aggregator :=
  Aggregator (raw_results a) (emails a) (usernames a) (domains a)
    (subdomains a) (phone_numbers a) (urls a) (social_profiles a)
    (breaches a) (accounts a) (metadata a) (f (sources a)).

(** What a call can read and write: the heap of dict objects, the system
    clock (the number of readings taken so far) and the aggregator. *)
Record world := World {
  heap : store;
  clock : nat;
  agg : aggregator
}.

(** [datetime.now()] *)
Definition now : M world nat :=
  λ w, (World (heap w) (S (clock w)) (agg w), Ok (clock w)).

Definition deref (l : loc) : M world dict :=
  λ w, match heap w !! l with
       | Some d => (w, Ok d)
       | None => (w, Raise Unmodelled)
       end.

(** [obj[key] = v] on the dict object at [l] *)
Definition setitem (l : loc) (key : string) (v : value) : M world unit :=
  let* d := deref l in
  λ w, (World (<[l := <[key := v]> d]> (heap w)) (clock w) (agg w), Ok tt).

Definition update (f : aggregator → aggregator) : M world unit :=
  λ w, (World (heap w) (clock w) (f (agg w)), Ok tt).

(** [s.add(x)] *)
Definition add (x : string) (s : gset string) : gset string := {[x]} ∪ s.

(** [xs.append(x)] *)
Definition append {A} (x : A) (xs : list A) : list A := xs ++ [x].

(** [self.sources[key].append(plugin_name)], on a [defaultdict(list)] *)
Definition append_source (key plugin_name : string)
    (src : gmap string (list string)) : gmap string (list string) :=
  <[key := append plugin_name (default [] (src !! key))]> src.

(** [result.get('findings', {})]; [None] stands for the fresh empty dict. *)
Definition get_findings (result : value) : M world (option value) :=
  match result with
  | VRef r => let* d := deref r in ret (d !! "findings")
  | _ => raise AttributeError
  end.

(** [findings[key]] guarded by [if key in findings], on whatever kind of
    object [findings] is; [None] when the guard is false. *)
Definition lookup_kind (findings : option value) (key : string)
    : M world (option value) :=
  match findings with
  | None => ret None
  | Some (VRef f) => let* d := deref f in ret (d !! key)
  | Some (VStr s) =>
      if PyStr.contains key s then raise TypeError else ret None
  | Some (VList items) =>
      if existsb (is_str key) items then raise TypeError else ret None
  | Some (VNone | VBool _ | VInt _) => raise TypeError
  end.

(** [if key in findings: for x in as_list(findings[key]): body(x)] *)
Definition for_kind (findings : option value) (key : string)
    (body : value → M world unit) : M world unit :=
  let* v := lookup_kind findings key in
  match v with
  | Some x => for_each (as_list x) body
  | None => ret tt
  end.

Definition add_email (plugin_name : string) (email : value) : M world unit :=
  match email with
  | VStr s =>
      update (with_emails (add (PyStr.strip (PyStr.lower s)))) >>
      update (with_sources (append_source ("email:" +:+ s) plugin_name))
  | _ => raise AttributeError
  end.

Definition add_username (plugin_name : string) (username : value)
    : M world unit :=
  match username with
  | VStr s =>
      update (with_usernames (add (PyStr.strip s))) >>
      update (with_sources (append_source ("username:" +:+ s) plugin_name))
  | _ => raise AttributeError
  end.

Definition add_domain (plugin_name : string) (domain : value)
    : M world unit :=
  match domain with
  | VStr s =>
      update (with_domains (add (PyStr.strip (PyStr.lower s)))) >>
      update (with_sources (append_source ("domain:" +:+ s) plugin_name))
  | _ => raise AttributeError
  end.

Definition add_subdomain (plugin_name : string) (subdomain : value)
    : M world unit :=
  match subdomain with
  | VStr s =>
      update (with_subdomains (add (PyStr.strip (PyStr.lower s)))) >>
      update (with_sources (append_source ("subdomain:" +:+ s) plugin_name))
  | _ => raise AttributeError
  end.

Definition add_phone (plugin_name : string) (phone : value) : M world unit :=
  match phone with
  | VStr s =>
      update (with_phone_numbers (add (PyStr.strip s))) >>
      update (with_sources (append_source ("phone:" +:+ s) plugin_name))
  | _ => raise AttributeError
  end.

Definition add_url (url : value) : M world unit :=
  match url with
  | VStr s => update (with_urls (add (PyStr.strip s)))
  | _ => raise AttributeError
  end.

Definition add_profile (plugin_name : string) (profile : value)
    : M world unit :=
  match profile with
  | VRef l =>
      setitem l "source" (VStr plugin_name) >>
      update (with_social_profiles (append (Shared l)))
  | _ => ret tt
  end.

Definition add_account (plugin_name : string) (account : value)
    : M world unit :=
  match account with
  | VRef l =>
      setitem l "source" (VStr plugin_name) >>
      update (with_accounts (append (Shared l)))
  | VStr s =>
      update (with_accounts (append (Fresh
        (<["platform" := VStr "unknown"]>
           (<["account" := VStr s]>
              (<["source" := VStr plugin_name]> ∅))))))
  | _ => ret tt
  end.

Definition add_breach (plugin_name : string) (breach : value)
    : M world unit :=
  match breach with
  | VRef l =>
      setitem l "source" (VStr plugin_name) >>
      update (with_breaches (append (Shared l)))
  | _ => ret tt
  end.

(** The nine blocks of [add_result] that follow
    [findings = result.get('findings', {})]. *)
Definition extract (plugin_name : string) (findings : option value)
    : M world unit :=
  for_kind findings "emails" (add_email plugin_name) >>
  for_kind findings "usernames" (add_username plugin_name) >>
  for_kind findings "domains" (add_domain plugin_name) >>
  for_kind findings "subdomains" (add_subdomain plugin_name) >>
  for_kind findings "phone_numbers" (add_phone plugin_name) >>
  for_kind findings "urls" add_url >>
  for_kind findings "social_profiles" (add_profile plugin_name) >>
  for_kind findings "accounts" (add_account plugin_name) >>
  for_kind findings "breaches" (add_breach plugin_name).

(** [ResultAggregator.add_result] *)
Definition add_result (plugin_name : string) (result : value)
    : M world unit :=
  let* timestamp := now in
  update (with_raw_results (append (RawResult plugin_name timestamp result))) >>
  let* findings := get_findings result in
  extract plugin_name findings.


(** [profile.get(key, default)], formatted inside an f-string *)
Definition get_or (d : dict) (key : string) (default : value) : value :=
  match d !! key with
  | Some v => v
  | None => default
  end.

(** The key of [_deduplicate_profiles]:
    [f"{profile.get('platform', 'unknown')}:{profile.get('url', profile.get('username', ''))}"] *)
Definition profile_key (profile : dict) : res string :=
  match format (get_or profile "platform" (VStr "unknown")),
        format (get_or profile "url" (get_or profile "username" (VStr ""))) with
  | Ok p, Ok u => Ok (p +:+ ":" +:+ u)
  | Raise e, _ => Raise e
  | _, Raise e => Raise e
  end.

(** The key of [_deduplicate_accounts]:
    [f"{account.get('platform', 'unknown')}:{account.get('account', account.get('email', ''))}"] *)
Definition account_key (account : dict) : res string :=
  match format (get_or account "platform" (VStr "unknown")),
        format (get_or account "account" (get_or account "email" (VStr ""))) with
  | Ok p, Ok u => Ok (p +:+ ":" +:+ u)
  | Raise e, _ => Raise e
  | _, Raise e => Raise e
  end.

(** The key of an element of an aggregated list, read through the heap. *)
Definition key_of (key : dict → res string) (σ : store) (e : entry)
    : res string :=
  match resolve σ e with
  | Some d => key d
  | None => Raise Unmodelled
  end.

(** The loop shared by [_deduplicate_profiles] and [_deduplicate_accounts]:
    [seen] and [unique] are the two accumulators. *)
Fixpoint dedup_loop (key : dict → res string) (σ : store)
    (items : list entry) (seen : gset string) (unique : list entry)
    : res (list entry) :=
  match items with
  | [] => Ok unique
  | item :: rest =>
      match key_of key σ item with
      | Ok k =>
          if decide (k ∈ seen)
          then dedup_loop key σ rest seen unique
          else dedup_loop key σ rest (add k seen) (append item unique)
      | Raise e => Raise e
      end
  end.

(** [ResultAggregator._deduplicate_profiles] *)
Definition _deduplicate_profiles (σ : store) (profiles : list entry)
    : res (list entry) :=
  dedup_loop profile_key σ profiles ∅ [].

(** [ResultAggregator._deduplicate_accounts] *)
Definition _deduplicate_accounts (σ : store) (accounts : list entry)
    : res (list entry) :=
  dedup_loop account_key σ accounts ∅ [].

(** [len(set(sources))] *)
Definition source_count (srcs : list string) : nat :=
  size (list_to_set srcs : gset string).

(** The body of the loop of [_calculate_confidence]. *)
Definition score (source_count : nat) : Z :=
  if (3 <=? source_count)%nat then 100
  else if (source_count =? 2)%nat then 75
  else 50.

(** [ResultAggregator._calculate_confidence] *)
Definition _calculate_confidence (a : aggregator) : gmap string Z :=
  (λ srcs, score (source_count srcs)) <$> sources a.

(** [sorted(list(s))] *)
Definition sorted (s : gset string) : list string :=
  merge_sort String.le (elements s).

Record summary := Summary {
  total_emails : nat;
  total_usernames : nat;
  total_domains : nat;
  total_subdomains : nat;
  total_phone_numbers : nat;
  total_urls : nat;
  total_social_profiles : nat;
  total_accounts : nat;
  total_breaches : nat
}.

Record data := Data {
  data_emails : list string;
  data_usernames : list string;
  data_domains : list string;
  data_subdomains : list string;
  data_phone_numbers : list string;
  data_urls : list string;
  data_social_profiles : list entry;
  data_accounts : list entry;
  data_breaches : list entry
}.

Record report := Report {
  report_summary : summary;
  report_data : data;
  report_confidence : gmap string Z;
  report_sources : gmap string (list string)
}.

(** [ResultAggregator.get_aggregated_results] *)
Definition get_aggregated_results (σ : store) (a : aggregator) : res report :=
  match _deduplicate_profiles σ (social_profiles a),
        _deduplicate_accounts σ (accounts a) with
  | Ok profiles, Ok accts =>
      Ok (Report
            (Summary (size (emails a)) (size (usernames a)) (size (domains a))
               (size (subdomains a)) (size (phone_numbers a)) (size (urls a))
               (length (social_profiles a)) (length (accounts a))
               (length (breaches a)))
            (Data (sorted (emails a)) (sorted (usernames a))
               (sorted (domains a)) (sorted (subdomains a))
               (sorted (phone_numbers a)) (sorted (urls a))
               profiles accts (breaches a))
            (_calculate_confidence a)
            (sources a))
  | Raise e, _ => Raise e
  | _, Raise e => Raise e
  end.

(** Feeding a list of [(plugin_name, result)] pairs to one aggregator, as the
    callers of [add_result] do. *)
Definition add_results (feed : list (string * value)) : M world unit :=
  for_each feed (λ p, add_result p.1 p.2).

(** The records of a list of the report, as its reader finds them. *)
Definition records (σ : store) (l : list entry) : list (option dict) :=
  resolve σ <$> l.

End Aggregator.

(** ** The workflow executor ([core/orchestrator.py]) *)

Module Orchestrator.

(** What the awaited call [self._run_plugin(plugin_name, target, plugin_config)]
    does, seen from its caller: it returns a value, or an [Exception] with
    message [msg] comes out of it. *)
Inductive outcome :=
| Returned (v : value)
| Raised (msg : string).

(** A key of [results['plugins']]: a [str], or [None] for a step dict that
    has no ['name']. *)
Abbreviation plugin_name := (option string).

Record invocation := Invocation {
  inv_plugin : plugin_name;
  inv_target : string;
  inv_config : option value
}.

(** [summary] as [_generate_summary] builds it. *)
Record summary := Summary {
  total_plugins : nat;
  successful : nat;
  failed : nat;
  findings : gmap string (list value);
  highlights : list string
}.

(** The dict [execute_workflow] returns; [duration_seconds], the difference
    of the two clock readings as a float, is left out. *)
Record results := Results {
  target : string;
  workflow : value;
  start_time : nat;
  plugins : list (plugin_name * entry);
  summary_of : summary;
  end_time : nat
}.

(** A file written by [_save_results]: the stem of its name is made of the
    sanitised target and of a clock reading. *)
Record saved_file := SavedFile {
  file_target : string;
  file_timestamp : nat;
  file_content : results
}.

(** The effects of a run: clock readings, collector invocations in order,
    files written. Console output is not modelled. *)
Record world := World {
  clock : nat;
  invoked : list invocation;
  saved : list saved_file
}.

(** [datetime.now()] *)
Definition now : M world nat :=
  λ w, (World (S (clock w)) (invoked w) (saved w), Ok (clock w)).

Definition lift {A} (r : res A) : M world A := λ w, (w, r).

(** [d[k] = v] on an insertion-ordered dict. *)
Fixpoint assign {V} (k : plugin_name) (v : V) (m : list (plugin_name * V))
    : list (plugin_name * V) :=
  match m with
  | [] => [(k, v)]
  | (k', v') :: m' =>
      if decide (k' = k) then (k, v) :: m' else (k', v') :: assign k v m'
  end.

(** [type(v).__name__] *)
Definition type_name (v : value) : string :=
  match v with
  | VNone => "NoneType"
  | VBool _ => "bool"
  | VInt _ => "int"
  | VStr _ => "str"
  | VList _ => "list"
  | VRef _ => "dict"
  end.

(** The message of the [AttributeError] of [v.get] on a [v] that is no dict. *)
Definition no_get (v : value) : string :=
  "'" +:+ type_name v +:+ "' object has no attribute 'get'".

(** [{'status': 'failed', 'error': str(e)}] *)
Definition failed_result (msg : string) : dict :=
  <["status" := VStr "failed"]> (<["error" := VStr msg]> ∅).

Definition str_of_nat (n : nat) : string :=
  NilZero.string_of_uint (Nat.to_uint n).

(** The hash key of a value, equal for two values exactly when Python finds
    them equal ([True == 1]); [None] for an unhashable value. *)
Definition hash_key (v : value) : option (string + (Z + unit)) :=
  match v with
  | VStr s => Some (inl s)
  | VInt n => Some (inr (inl n))
  | VBool b => Some (inr (inl (if b then 1%Z else 0%Z)))
  | VNone => Some (inr (inr tt))
  | VList _ | VRef _ => None
  end.

(** [len(set(xs))] *)
Definition unique_count (xs : list value) : res nat :=
  match mapM hash_key xs with
  | Some ks => Ok (size (list_to_set ks : gset (string + (Z + unit))))
  | None => Raise TypeError
  end.

Section WithEnvironment.

(** The heap of dict objects; the executor only reads it. *)
Variable σ : store.

(** The collectors, through [_run_plugin]. *)
Variable _run_plugin : plugin_name → string → option value → outcome.

Definition invoke (name : plugin_name) (tgt : string) (config : option value)
    : M world outcome :=
  λ w, (World (clock w) (invoked w ++ [Invocation name tgt config]) (saved w),
        Ok (_run_plugin name tgt config)).

Definition deref (l : loc) : res dict :=
  match σ !! l with
  | Some d => Ok d
  | None => Raise Unmodelled
  end.

(** [workflow.get('steps', [])], as the sequence the [for] loop walks. *)
Definition steps_of (wf : dict) : res (list value) :=
  match wf !! "steps" with
  | None => Ok []
  | Some (VList items) => Ok items
  | Some (VStr s) => Ok ((λ c, VStr (String c EmptyString)) <$> list_ascii_of_string s)
  | Some (VNone | VBool _ | VInt _) => Raise TypeError
  | Some (VRef _) => Raise Unmodelled
  end.

(** [plugin_name = step if isinstance(step, str) else step.get('name')] and
    [plugin_config = step if isinstance(step, dict) else {}];
    [None] stands for the fresh empty dict. *)
Definition read_step (step : value) : res (plugin_name * option value) :=
  match step with
  | VStr s => Ok (Some s, None)
  | VRef l =>
      match deref l with
      | Ok d =>
          match d !! "name" with
          | None | Some VNone => Ok (None, Some step)
          | Some (VStr s) => Ok (Some s, Some step)
          | Some _ => Raise Unmodelled
          end
      | Raise e => Raise e
      end
  | _ => Raise AttributeError
  end.

(** The body of the [for step in ...] loop: the [try] block and its
    [except Exception] handler. A returned value that is no dict makes
    [plugin_result.get('status')] raise inside the [try], so the handler
    overwrites the entry just written. *)
Definition run_step (tgt : string) (step : value)
    (plugins : list (plugin_name * entry))
    : M world (list (plugin_name * entry)) :=
  let* nc := lift (read_step step) in
  let* o := invoke nc.1 tgt nc.2 in
  match o with
  | Returned (VRef l) =>
      let* _d := lift (deref l) in
      ret (assign nc.1 (Shared l) plugins)
  | Returned v => ret (assign nc.1 (Fresh (failed_result (no_get v))) plugins)
  | Raised msg => ret (assign nc.1 (Fresh (failed_result msg)) plugins)
  end.

Fixpoint run_steps (tgt : string) (steps : list value)
    (plugins : list (plugin_name * entry))
    : M world (list (plugin_name * entry)) :=
  match steps with
  | [] => ret plugins
  | step :: rest =>
      let* plugins' := run_step tgt step plugins in
      run_steps tgt rest plugins'
  end.

(** [plugin_result.get('status') == 'success'] *)
Definition succeeded (plugin_result : dict) : bool :=
  match plugin_result !! "status" with
  | Some v => is_str "success" v
  | None => false
  end.

(** The loop [for key, value in findings.items()] of [_generate_summary]. *)
Definition collect (found : dict) (acc : gmap string (list value))
    : gmap string (list value) :=
  map_fold (λ key v acc, <[key := default [] (acc !! key) ++ as_list v]> acc)
    acc found.

(** The loop over [results['plugins'].items()], with the three values it
    accumulates. *)
Fixpoint tally (items : list (plugin_name * entry))
    (ok ko : nat) (acc : gmap string (list value))
    : res (nat * nat * gmap string (list value)) :=
  match items with
  | [] => Ok (ok, ko, acc)
  | (_, e) :: rest =>
      match resolve σ e with
      | None => Raise Unmodelled
      | Some plugin_result =>
          if succeeded plugin_result then
            match plugin_result !! "findings" with
            | None => tally rest (S ok) ko acc
            | Some (VRef f) =>
                match deref f with
                | Ok found => tally rest (S ok) ko (collect found acc)
                | Raise e => Raise e
                end
            | Some _ => Raise AttributeError
            end
          else tally rest ok (S ko) acc
      end
  end.

(** One [if summary['findings'].get(kind): ...] block counting distinct
    values. *)
Definition highlight_unique (acc : gmap string (list value))
    (kind text : string) (hs : list string) : res (list string) :=
  match acc !! kind with
  | Some (x :: xs) =>
      match unique_count (x :: xs) with
      | Ok n => Ok (hs ++ [str_of_nat n +:+ text])
      | Raise e => Raise e
      end
  | _ => Ok hs
  end.

(** The block for breaches, which counts occurrences. *)
Definition highlight_count (acc : gmap string (list value))
    (kind text : string) (hs : list string) : list string :=
  match acc !! kind with
  | Some (x :: xs) => hs ++ [str_of_nat (length (x :: xs)) +:+ text]
  | _ => hs
  end.

Definition make_highlights (acc : gmap string (list value))
    : res (list string) :=
  match highlight_unique acc "emails" " unique email(s) discovered" [] with
  | Raise e => Raise e
  | Ok h1 =>
  match highlight_unique acc "usernames" " social media profile(s) found" h1 with
  | Raise e => Raise e
  | Ok h2 =>
  match highlight_unique acc "subdomains" " subdomain(s) enumerated" h2 with
  | Raise e => Raise e
  | Ok h3 =>
      highlight_unique acc "accounts" " online account(s) discovered"
        (highlight_count acc "breaches" " data breach(es) identified" h3)
  end end end.

(** [PhineasOrchestrator._generate_summary] *)
Definition _generate_summary (plugins : list (plugin_name * entry))
    : res summary :=
  match tally plugins 0 0 ∅ with
  | Raise e => Raise e
  | Ok (ok, ko, acc) =>
      match make_highlights acc with
      | Raise e => Raise e
      | Ok hs => Ok (Summary (length plugins) ok ko acc hs)
      end
  end.

(** [results['target'].replace('@', '_at_').replace('.', '_').replace('/', '_')] *)
Definition target_safe (tgt : string) : string :=
  PyStr.replace_char "/" "_"
    (PyStr.replace_char "." "_" (PyStr.replace_char "@" "_at_" tgt)).

(** [PhineasOrchestrator._save_results] *)
Definition _save_results (r : results) : M world unit :=
  let* timestamp := now in
  λ w, (World (clock w) (invoked w)
          (saved w ++ [SavedFile (target_safe (target r)) timestamp r]),
        Ok tt).

(** [PhineasOrchestrator.execute_workflow] *)
Definition execute_workflow (wf : value) (tgt : string) : M world results :=
  let* start := now in
  match wf with
  | VRef l =>
      let* d := lift (deref l) in
      let* steps := lift (steps_of d) in
      let* plugins := run_steps tgt steps [] in
      let* stop := now in
      let* s := lift (_generate_summary plugins) in
      let r := Results tgt (default (VStr "custom") (d !! "name")) start
                 plugins s stop in
      _save_results r >>
      ret r
  | _ => raise AttributeError
  end.

End WithEnvironment.

End Orchestrator.

(** ** Concrete inputs *)

Module Examples.
Import Aggregator.

(** The scenario of the specification: two collectors report the same
    address, one of them in capitals, the second one with a profile. *)
Definition scenario_heap : store :=
  [ {[ "status" := VStr "success"; "findings" := VRef 1 ]};
    {[ "emails" := VList [VStr "USER@Example.com"] ]};
    {[ "status" := VStr "success"; "findings" := VRef 3 ]};
    {[ "emails" := VList [VStr "user@example.com"];
       "social_profiles" := VList [VRef 4] ]};
    {[ "platform" := VStr "x"; "username" := VStr "user";
       "url" := VStr "https://x.com/user" ]} ].

Definition scenario_feed : list (string * value) :=
  [("emailCollector", VRef 0); ("socialCollector", VRef 2)].

(** One result with a value of each scalar kind. *)
Definition scalars_heap : store :=
  [ {[ "status" := VStr "success"; "findings" := VRef 1 ]};
    {[ "emails" := VList [VStr "a@b.c"];
       "usernames" := VList [VStr "ann"];
       "domains" := VList [VStr "b.c"];
       "subdomains" := VList [VStr "www.b.c"];
       "phone_numbers" := VList [VStr "+1 555 0100"];
       "urls" := VList [VStr "https://b.c/a"] ]} ].

(** One collector reporting a user name in two spellings. *)
Definition spellings_heap : store :=
  [ {[ "status" := VStr "success"; "findings" := VRef 1 ]};
    {[ "usernames" := VList [VStr "User"; VStr "user"] ]} ].

(** Two collectors, each reporting a breach under the same key fields and a
    profile of the same platform and url. *)
Definition twins_heap : store :=
  [ {[ "status" := VStr "success"; "findings" := VRef 1 ]};
    {[ "breaches" := VList [VRef 2]; "social_profiles" := VList [VRef 3] ]};
    {[ "platform" := VStr "adobe"; "email" := VStr "a@b.c";
       "name" := VStr "Adobe" ]};
    {[ "platform" := VStr "x"; "url" := VStr "https://x.com/ann";
       "username" := VStr "ann" ]};
    {[ "status" := VStr "success"; "findings" := VRef 5 ]};
    {[ "breaches" := VList [VRef 6]; "social_profiles" := VList [VRef 7] ]};
    {[ "platform" := VStr "adobe"; "email" := VStr "a@b.c";
       "name" := VStr "Adobe" ]};
    {[ "platform" := VStr "x"; "url" := VStr "https://x.com/ann";
       "username" := VStr "Ann" ]} ].

Definition twins_feed : list (string * value) :=
  [("hibp", VRef 0); ("dehashed", VRef 4)].

(** The state after a feed, from a new aggregator. *)
Definition after (σ : store) (feed : list (string * value)) : world :=
  (add_results feed (World σ 0 init)).1.

(** The [data] section of the report after a feed, with the records of its
    structured lists read from the heap. *)
Definition data_after (σ : store) (feed : list (string * value))
    : option (data * list (option dict) * list (option dict)
              * list (option dict)) :=
  let w := after σ feed in
  match get_aggregated_results (heap w) (agg w) with
  | Ok r => Some (report_data r,
                  records (heap w) (data_social_profiles (report_data r)),
                  records (heap w) (data_accounts (report_data r)),
                  records (heap w) (data_breaches (report_data r)))
  | Raise _ => None
  end.

(** A result and its copy marked as failed, with the same findings. *)
Definition status_result : dict :=
  {[ "status" := VStr "success"; "findings" := VRef 2 ]}.

Definition status_heap : store :=
  [ status_result;
    <["status" := VStr "failed"]> status_result;
    {[ "emails" := VList [VStr "a@b.c"]; "accounts" := VList [VStr "github"] ]} ].

(** A source index where one key was reported by three collectors, one of
    them twice, and another key by a single collector. *)
Definition corroborated : aggregator :=
  with_sources
    (λ _, {[ "email:a@b.c" := ["holehe"; "hibp"; "holehe"; "sherlock"];
             "domain:b.c" := ["sublist3r"] ]})
    init.

(** The six scalar kinds, the key of each in a findings dict and its set in
    the aggregator. *)
Inductive scalar_kind :=
| Emails | Usernames | Domains | Subdomains | PhoneNumbers | Urls.

Definition kind_key (k : scalar_kind) : string :=
  match k with
  | Emails => "emails"
  | Usernames => "usernames"
  | Domains => "domains"
  | Subdomains => "subdomains"
  | PhoneNumbers => "phone_numbers"
  | Urls => "urls"
  end.

Definition kind_set (k : scalar_kind) (a : aggregator) : gset string :=
  match k with
  | Emails => emails a
  | Usernames => usernames a
  | Domains => domains a
  | Subdomains => subdomains a
  | PhoneNumbers => phone_numbers a
  | Urls => urls a
  end.

(** The kinds whose values [add_result] lower-cases. *)
Definition case_folded (k : scalar_kind) : bool :=
  match k with
  | Emails | Domains | Subdomains => true
  | Usernames | PhoneNumbers | Urls => false
  end.

(** [v1] and [v2] are one value [c] up to the white space around it and,
    for a kind that is lower-cased, up to the case of its letters. *)
Definition alike (k : scalar_kind) (v1 v2 : string) : Prop :=
  ∃ a1 c1 b1 a2 c2 b2 : string,
    v1 = a1 +:+ c1 +:+ b1 ∧ v2 = a2 +:+ c2 +:+ b2
    ∧ PyStr.blank a1 ∧ PyStr.blank b1 ∧ PyStr.blank a2 ∧ PyStr.blank b2
    ∧ if case_folded k then PyStr.lower c1 = PyStr.lower c2 else c1 = c2.

(** Two results, each with one value of kind [k]: the first in a list, the
    second as a bare string. *)
Definition pair_heap (k : scalar_kind) (v1 v2 : string) : store :=
  [ {[ "findings" := VRef 1 ]};
    {[ kind_key k := VList [VStr v1] ]};
    {[ "findings" := VRef 3 ]};
    {[ kind_key k := VStr v2 ]} ].

(** What the body of the loop of a scalar kind does to the aggregator for
    a string [s] reported by [n]. *)
Definition scalar_step (k : scalar_kind) (n : string) (a : aggregator)
    (s : string) : aggregator :=
  match k with
  | Emails =>
      with_sources (append_source ("email:" +:+ s) n)
        (with_emails (add (PyStr.strip (PyStr.lower s))) a)
  | Usernames =>
      with_sources (append_source ("username:" +:+ s) n)
        (with_usernames (add (PyStr.strip s)) a)
  | Domains =>
      with_sources (append_source ("domain:" +:+ s) n)
        (with_domains (add (PyStr.strip (PyStr.lower s))) a)
  | Subdomains =>
      with_sources (append_source ("subdomain:" +:+ s) n)
        (with_subdomains (add (PyStr.strip (PyStr.lower s))) a)
  | PhoneNumbers =>
      with_sources (append_source ("phone:" +:+ s) n)
        (with_phone_numbers (add (PyStr.strip s)) a)
  | Urls => with_urls (add (PyStr.strip s)) a
  end.

(** The body of the loop of a scalar kind. *)
Definition kind_body (k : scalar_kind) (n : string) : value → M world unit :=
  match k with
  | Emails => add_email n
  | Usernames => add_username n
  | Domains => add_domain n
  | Subdomains => add_subdomain n
  | PhoneNumbers => add_phone n
  | Urls => add_url
  end.

(** The member of its set a scalar value ends up as. *)
Definition normalize (k : scalar_kind) (s : string) : string :=
  if case_folded k then PyStr.strip (PyStr.lower s) else PyStr.strip s.

(** [e] is at position [i] of [items], has key [k], and no item before it
    has that key. *)
Definition first_with (kf : entry → res string) (items : list entry)
    (i : nat) (e : entry) (k : string) : Prop :=
  items !! i = Some e ∧ kf e = Ok k
  ∧ ∀ j e', j < i → items !! j = Some e' → kf e' ≠ Ok k.

(** [out] is [items] with, for each key, the first item of that key kept
    and the later ones dropped. *)
Definition first_seen_kept (kf : entry → res string)
    (items out : list entry) : Prop :=
  sublist out items
  ∧ NoDup (kf <$> out)
  ∧ (∀ i e k, first_with kf items i e k → e ∈ out)
  ∧ (∀ e, e ∈ out → ∃ i k, first_with kf items i e k).

(** Two collectors reporting the same record twice over: one dict per
    report, equal field by field. *)
Definition repeat_feed : list (string * value) :=
  [("hibp", VRef 0); ("hibp", VRef 4)].

(** The feed of the twins, second collector first. *)
Definition twins_feed_swapped : list (string * value) :=
  [("dehashed", VRef 4); ("hibp", VRef 0)].

End Examples.

Module WorkflowExamples.
Import Orchestrator.

(** A workflow of three collectors and the results of the first and the
    third; the second one raises. *)
Definition trio_heap : store :=
  [ {[ "name" := VStr "email_intelligence";
       "steps" := VList [VStr "holehe"; VStr "hibp"; VStr "sherlock"] ]};
    {[ "status" := VStr "success"; "findings" := VRef 2 ]};
    {[ "emails" := VList [VStr "a@b.c"]; "accounts" := VList [VStr "github"] ]};
    {[ "status" := VStr "success"; "findings" := VRef 4 ]};
    {[ "usernames" := VList [VStr "ann"]; "accounts" := VStr "gitlab" ]} ].

Definition trio_plugins (name : plugin_name) (tgt : string)
    (config : option value) : outcome :=
  match name with
  | Some "holehe" => Returned (VRef 1)
  | Some "sherlock" => Returned (VRef 3)
  | _ => Raised "API key not configured"
  end.

(** The same workflow, where the first collector reports its account as a
    record, as the aggregator accepts it. *)
Definition trio_records_heap : store :=
  [ {[ "name" := VStr "email_intelligence";
       "steps" := VList [VStr "holehe"; VStr "hibp"; VStr "sherlock"] ]};
    {[ "status" := VStr "success"; "findings" := VRef 2 ]};
    {[ "emails" := VList [VStr "a@b.c"]; "accounts" := VList [VRef 5] ]};
    {[ "status" := VStr "success"; "findings" := VRef 4 ]};
    {[ "usernames" := VList [VStr "ann"]; "accounts" := VStr "gitlab" ]};
    {[ "platform" := VStr "github"; "account" := VStr "ann" ]} ].

(** A workflow without steps. *)
Definition idle_heap : store :=
  [ {[ "name" := VStr "idle"; "steps" := VList [] ]} ].

Definition no_plugins (name : plugin_name) (tgt : string)
    (config : option value) : outcome :=
  Raised "no such plugin".

(** The kinds whose distinct values [_generate_summary] counts with a set. *)
Definition counted : list string :=
  ["emails"; "usernames"; "subdomains"; "accounts"].

Definition hashable (v : value) : bool :=
  match hash_key v with
  | Some _ => true
  | None => false
  end.

(** The values of the counted kinds of a findings dict can be hashed. *)
Definition hashable_findings (found : dict) : bool :=
  forallb
    (λ kind, match found !! kind with
             | Some v => forallb hashable (as_list v)
             | None => true
             end)
    counted.

End WorkflowExamples.

(** ** Notions for the invariants of the aggregator *)

Module Notions.
Import Aggregator Examples.

(** Every list of the source index has a name in it. *)
Definition sources_inhabited (a : aggregator) : Prop :=
  ∀ key l, sources a !! key = Some l → l ≠ [].

(** Every member of a scalar set is what [strip] leaves of it, and for the
    kinds that are lower-cased what [lower] leaves of it. *)
Definition members_normalized (a : aggregator) : Prop :=
  ∀ k x, x ∈ kind_set k a →
    PyStr.strip x = x ∧ (case_folded k = true → PyStr.lower x = x).

(** The key of the source index for a value of a scalar kind; urls have
    none. *)
Definition source_key (k : scalar_kind) (s : string) : option string :=
  match k with
  | Emails => Some ("email:" +:+ s)
  | Usernames => Some ("username:" +:+ s)
  | Domains => Some ("domain:" +:+ s)
  | Subdomains => Some ("subdomain:" +:+ s)
  | PhoneNumbers => Some ("phone:" +:+ s)
  | Urls => None
  end.

(** The list of the [data] section for a scalar kind. *)
Definition data_of (k : scalar_kind) (d : data) : list string :=
  match k with
  | Emails => data_emails d
  | Usernames => data_usernames d
  | Domains => data_domains d
  | Subdomains => data_subdomains d
  | PhoneNumbers => data_phone_numbers d
  | Urls => data_urls d
  end.

(** The count of the [summary] section for a scalar kind. *)
Definition total_of (k : scalar_kind) (s : summary) : nat :=
  match k with
  | Emails => total_emails s
  | Usernames => total_usernames s
  | Domains => total_domains s
  | Subdomains => total_subdomains s
  | PhoneNumbers => total_phone_numbers s
  | Urls => total_urls s
  end.

End Notions.

(** ** The CSV export ([ResultAggregator.export_csv]) *)

Module CsvExport.
Import Aggregator.

(** [sep.join(xs)] *)
Fixpoint join (sep : string) (xs : list string) : string :=
  match xs with
  | [] => EmptyString
  | x :: rest =>
      match rest with
      | [] => x
      | _ :: _ => x +:+ sep +:+ join sep rest
      end
  end.

(** A row handed to the writer; the text of a cell is [str] of its value,
    [None] being written as the empty string. *)
Abbreviation row := (list value).

(** [ValueError] is what [DictWriter.writerow] raises for a dict with a key
    that is no field name. *)
Inductive csv_exn :=
| ValueError
| Model (e : exn).

(** What a call of [export_csv] leaves behind: the rows of the file, and
    whether the call returned, or raised once the file was open, or raised
    before opening it. *)
Inductive exported :=
| Exported (rows : list row)
| Interrupted (rows : list row) (e : csv_exn)
| NotStarted (e : exn).

Definition email_header : row :=
  [VStr "Email"; VStr "Sources"; VStr "Confidence"].

Definition profile_fields : list string :=
  ["platform"; "username"; "url"; "source"].

(** The body of the loop over [results['data']['emails']]. *)
Definition email_row (a : aggregator) (confidence : gmap string Z)
    (email : string) : row :=
  let key := "email:" +:+ email in
  [VStr email;
   VStr (join ", " (default ["unknown"] (sources a !! key)));
   VInt (default 50%Z (confidence !! key))].

(** [DictWriter.writerow(rowdict)] with the default [restval] and
    [extrasaction]: the values of the fields in order, the empty string for
    a missing one. *)
Definition dict_row (fieldnames : list string) (d : dict) : row :=
  (λ field, default (VStr "") (d !! field)) <$> fieldnames.

(** [for record in records: writer.writerow(record)] *)
Fixpoint write_dicts (fieldnames : list string) (σ : store)
    (items : list entry) (written : list row) : exported :=
  match items with
  | [] => Exported written
  | item :: rest =>
      match resolve σ item with
      | None => Interrupted written (Model Unmodelled)
      | Some d =>
          if decide (dom d ⊆ list_to_set fieldnames)
          then write_dicts fieldnames σ rest (written ++ [dict_row fieldnames d])
          else Interrupted written ValueError
      end
  end.

Section WithKeyOrder.

(** [list(d.keys())]: the keys of a dict in the order they were inserted,
    which the embedding of dicts does not keep. *)
Variable keys : dict → list string.

(** [ResultAggregator.export_csv] *)
Definition export_csv (σ : store) (a : aggregator) (data_type : string)
    : exported :=
  match get_aggregated_results σ a with
  | Raise e => NotStarted e
  | Ok results =>
      if String.eqb data_type "emails" then
        Exported (email_header
                  :: (email_row a (report_confidence results)
                        <$> data_emails (report_data results)))
      else if String.eqb data_type "social_profiles" then
        write_dicts profile_fields σ
          (data_social_profiles (report_data results))
          [VStr <$> profile_fields]
      else if String.eqb data_type "breaches" then
        match data_breaches (report_data results) with
        | [] => Exported []
        | first :: _ =>
            match resolve σ first with
            | None => Interrupted [] (Model Unmodelled)
            | Some d =>
                write_dicts (keys d) σ (data_breaches (report_data results))
                  [VStr <$> keys d]
            end
        end
      else Exported []
  end.

End WithKeyOrder.

(** A result that reports one email and nothing else. *)
Definition lone_email_heap (s : string) : store :=
  [ {[ "findings" := VRef 1 ]}; {[ "emails" := VStr s ]} ].

(** Every key of the record is one of the field names. *)
Definition fits (fieldnames : list string) (σ : store) (e : entry) : Prop :=
  ∃ d, resolve σ e = Some d ∧ dom d ⊆ list_to_set fieldnames.

(** A profile as the holehe collector builds it, and the result that
    reports it. *)
Definition holehe_heap : store :=
  [ {[ "status" := VStr "success"; "findings" := VRef 1 ]};
    {[ "social_profiles" := VList [VRef 2; VRef 3] ]};
    {[ "platform" := VStr "x"; "url" := VStr "https://x.com/ann" ]};
    {[ "platform" := VStr "github"; "email" := VStr "a@b.c";
       "exists" := VBool true ]} ].

End CsvExport.

(** Workflows for the step loop. *)
Module RunExamples.
Import Orchestrator.

(** A workflow that names one collector twice, with a configured step in
    between. *)
Definition twice_heap : store :=
  [ {[ "name" := VStr "twice";
       "steps" := VList [VStr "holehe"; VRef 1; VStr "holehe"] ]};
    {[ "name" := VStr "hibp"; "timeout" := VInt 30 ]};
    {[ "status" := VStr "success"; "findings" := VRef 3 ]};
    {[ "emails" := VList [VStr "a@b.c"] ]} ].

Definition twice_plugins (name : plugin_name) (tgt : string)
    (config : option value) : outcome :=
  match name with
  | Some "holehe" => Returned (VRef 2)
  | _ => Raised "API key not configured"
  end.

(** A collector that reports its accounts as records, which the aggregator
    accepts. *)
Definition records_heap : store :=
  [ {[ "name" := VStr "accounts"; "steps" := VList [VStr "holehe"] ]};
    {[ "status" := VStr "success"; "findings" := VRef 2 ]};
    {[ "accounts" := VList [VRef 3] ]};
    {[ "platform" := VStr "github"; "account" := VStr "ann" ]} ].

Definition records_plugins (name : plugin_name) (tgt : string)
    (config : option value) : outcome :=
  Returned (VRef 1).

(** A workflow whose second step is a number. *)
Definition malformed_heap : store :=
  [ {[ "steps" := VList [VStr "holehe"; VInt 7; VStr "sherlock"] ]};
    {[ "status" := VStr "success" ]} ].

End RunExamples.

(** ** Targets: splitting and classifying *)

Module PySplit.

(** [s.split(c)] for a one-character separator. *)
Fixpoint split_char (c : ascii) (s : string) : list string :=
  match s with
  | EmptyString => [EmptyString]
  | String x s' =>
      if Ascii.eqb x c then EmptyString :: split_char c s'
      else match split_char c s' with
           | [] => [String x EmptyString]
           | piece :: pieces => String x piece :: pieces
           end
  end.

(** [xs[-n:]] for a positive [n]. *)
Definition last_items {A} (n : nat) (xs : list A) : list A :=
  drop (length xs - n) xs.

(** [c in s] for a character. *)
Definition has (c : ascii) (s : string) : bool :=
  PyStr.contains (String c EmptyString) s.

End PySplit.

(** The choice of a workflow for a target, as [main] of
    [core/orchestrator.py] and [scan] of [phineas.py] both make it when the
    workflow is ['auto']. *)
Module Cli.
Import PySplit.

Definition detect_workflow (target : string) : string :=
  if has "@" target then "email_intelligence"
  else if has "." target && (2 <=? length (split_char "." target))
  then "domain_reconnaissance"
  else "username_enumeration".

End Cli.

(** The target helpers of [PluginBase] ([plugins/__init__.py]). *)
Module PluginBase.
Import PySplit.

(** The outcome of [xs[i]]. *)
Inductive indexed (A : Type) :=
| Item (a : A)
| IndexError.
Arguments Item {A} a.
Arguments IndexError {A}.

Definition getitem {A} (xs : list A) (i : nat) : indexed A :=
  match xs !! i with
  | Some a => Item a
  | None => IndexError
  end.

Definition _extract_email_from_target (target : string) : option string :=
  if has "@" target then Some target else None.

Definition _extract_username_from_email (target : string)
    : indexed (option string) :=
  if has "@" target then
    match getitem (split_char "@" target) 0 with
    | Item username => Item (Some username)
    | IndexError => IndexError
    end
  else Item None.

Section WithUrlparse.

(** [urlparse(url).netloc] *)
Variable netloc : string → string.

Definition _extract_domain_from_target (target : string)
    : indexed (option string) :=
  if has "@" target then
    match getitem (split_char "@" target) 1 with
    | Item domain => Item (Some domain)
    | IndexError => IndexError
    end
  else if String.prefix "http" target then Item (Some (netloc target))
  else if has "." target then Item (Some target)
  else Item None.

End WithUrlparse.

End PluginBase.

(** The domain that [CronosBridge._extract_targets] derives from a
    subdomain ([integrations/cronos_bridge.py]):
    [parts = subdomain.split('.')], and ['.'.join(parts[-2:])] if there are
    at least two parts. *)
Module CronosBridge.
Import PySplit CsvExport.

Definition domain_of (subdomain : string) : option string :=
  let parts := split_char "." subdomain in
  if 2 <=? length parts then Some (join "." (last_items 2 parts)) else None.

End CronosBridge.

(** ** API keys ([core/config_manager.py]) *)

Module ConfigManager.

(** What [keyring.get_password] does: it returns a password or [None], or
    it raises. *)
Inductive keyring_answer :=
| Password (p : option string)
| KeyringError.

(** [bool(v)] *)
Definition truthy (σ : store) (v : value) : res bool :=
  match v with
  | VNone => Ok false
  | VBool b => Ok b
  | VInt n => Ok (negb (n =? 0)%Z)
  | VStr s => Ok (negb (String.eqb s ""))
  | VList items => Ok (negb (bool_decide (items = [])))
  | VRef l =>
      match σ !! l with
      | Some d => Ok (negb (bool_decide (d = ∅)))
      | None => Raise Unmodelled
      end
  end.

Section WithBackends.

Variable σ : store.

(** [str.upper] *)
Variable upper : string → string.
(** [os.getenv] *)
Variable getenv : string → option string.
(** [keyring.get_password] *)
Variable get_password : string → string → keyring_answer.
(** [ConfigManager._get_cronos_api_key], which reads ops.json. *)
Variable _get_cronos_api_key : string → value.

Definition env_var (service : string) : string :=
  "PHINEAS_" +:+ upper service +:+ "_API_KEY".

(** [d.get(k, {})] on a value [d]; [None] stands for the fresh empty dict. *)
Definition get_or_empty (d : value) (k : string) : res (option value) :=
  match d with
  | VRef l =>
      match σ !! l with
      | Some m => Ok (m !! k)
      | None => Raise Unmodelled
      end
  | _ => Raise AttributeError
  end.

(** Steps 3 and 4 of [get_api_key]. *)
Definition from_config (config : dict) (service : string) : res value :=
  match
    match config !! "api_keys" with
    | Some api_keys => get_or_empty api_keys service
    | None => Ok None
    end
  with
  | Raise e => Raise e
  | Ok None => Ok VNone
  | Ok (Some (VRef l)) =>
      match σ !! l with
      | Some d => Ok (default VNone (d !! "key"))
      | None => Raise Unmodelled
      end
  | Ok (Some (VStr s)) => Ok (VStr s)
  | Ok (Some _) =>
      let cronos_key := _get_cronos_api_key service in
      match truthy σ cronos_key with
      | Ok true => Ok cronos_key
      | Ok false => Ok VNone
      | Raise e => Raise e
      end
  end.

(** [ConfigManager.get_api_key] *)
Definition get_api_key (config : dict) (service : string) : res value :=
  match getenv (env_var service) with
  | Some (String c k) => Ok (VStr (String c k))
  | _ =>
      match get_password "phineas" service with
      | Password (Some (String c k)) => Ok (VStr (String c k))
      | _ => from_config config service
      end
  end.

End WithBackends.

(** A config file with keys for other services. *)
Definition keys_heap : store :=
  [ {[ "shodan" := VStr "abc" ]} ].

Definition keys_config : dict :=
  {[ "output_dir" := VStr "./phineas-results"; "api_keys" := VRef 0 ]}.

End ConfigManager.

(** * Properties of [lower] and [strip] *)

Module PyStrTheory.
Import PyStr.

Lemma lower_app s t : lower (s +:+ t) = lower s +:+ lower t.
Proof. induction s as [|c s IH]; simpl; [done | by rewrite IH]. Qed.

Lemma isspace_lower_char c : isspace c → lower_char c = c.
Proof.
  destruct c as [[] [] [] [] [] [] [] []]; intros Hc;
    first [ reflexivity | by vm_compute in Hc ].
Qed.

Lemma blank_lower a : blank a → lower a = a.
Proof.
  induction a as [|c a IH]; simpl; [done |].
  intros [Hc Ha]%andb_True. by rewrite isspace_lower_char, IH.
Qed.

Lemma lstrip_blank b : blank b → lstrip b = EmptyString.
Proof.
  induction b as [|c b IH]; simpl; [done |].
  intros [Hc Hb]%andb_True. apply Is_true_true in Hc. rewrite Hc. auto.
Qed.

Lemma rstrip_blank b : blank b → rstrip b = EmptyString.
Proof.
  induction b as [|c b IH]; simpl; [done |].
  intros [Hc Hb]%andb_True. apply Is_true_true in Hc.
  by rewrite IH, Hc.
Qed.

Lemma lstrip_blank_app a s : blank a → lstrip (a +:+ s) = lstrip s.
Proof.
  induction a as [|c a IH]; simpl; [done |].
  intros [Hc Ha]%andb_True. apply Is_true_true in Hc. rewrite Hc. auto.
Qed.

Lemma rstrip_app_blank s b : blank b → rstrip (s +:+ b) = rstrip s.
Proof.
  intros Hb. induction s as [|c s IH]; simpl.
  - by apply rstrip_blank.
  - by rewrite IH.
Qed.

Lemma lstrip_app c b :
  lstrip (c +:+ b) = if blank c then lstrip b else lstrip c +:+ b.
Proof.
  induction c as [|x c IH]; simpl; [done |].
  destruct (isspace x); simpl; [apply IH | done].
Qed.

(** White space around a string does not survive [strip]. *)
Lemma strip_pad a c b : blank a → blank b → strip (a +:+ c +:+ b) = strip c.
Proof.
  intros Ha Hb. unfold strip.
  rewrite lstrip_blank_app by done. rewrite lstrip_app.
  destruct (blank c) eqn:Hc.
  - rewrite (lstrip_blank b) by done.
    rewrite (lstrip_blank c); [done | by apply Is_true_true].
  - by apply rstrip_app_blank.
Qed.

Lemma strip_lower_pad a c b :
  blank a → blank b → strip (lower (a +:+ c +:+ b)) = strip (lower c).
Proof.
  intros Ha Hb. rewrite !lower_app, (blank_lower a), (blank_lower b) by done.
  by apply strip_pad.
Qed.

End PyStrTheory.

(** * Properties of the aggregator *)

Module AggregatorTheory.
Import Aggregator Examples.

(** C1. In the scenario of the specification the set of emails is the single
    lower-case address, but the source index is keyed by the address as each
    collector spelled it: the entry of ["email:user@example.com"] holds the
    second collector alone, the first one is filed under the spelling in
    capitals, and the confidence of the key is 50, not 75. *)
Theorem scenario_sources_keyed_by_raw_value :
  let a := agg (after scenario_heap scenario_feed) in
  (add_results scenario_feed (World scenario_heap 0 init)).2 = Ok tt
  ∧ emails a = {["user@example.com"]}
  ∧ size (emails a) = 1
  ∧ sources a !! "email:user@example.com" = Some ["socialCollector"]
  ∧ sources a !! "email:USER@Example.com" = Some ["emailCollector"]
  ∧ _calculate_confidence a !! "email:user@example.com" = Some 50%Z.
Proof. repeat apply conj; vm_compute; reflexivity. Qed.

(** C5. A result with one value of each scalar kind: the five kinds other
    than urls each get an entry of the source index, the url is added to its
    set and gets none. *)
Theorem url_gets_no_source_entry :
  let a := agg (after scalars_heap [("wayback", VRef 0)]) in
  (add_results [("wayback", VRef 0)] (World scalars_heap 0 init)).2 = Ok tt
  ∧ urls a = {["https://b.c/a"]}
  ∧ sources a !! "url:https://b.c/a" = None
  ∧ sources a !! "urls:https://b.c/a" = None
  ∧ dom (sources a) =
      {["email:a@b.c"; "username:ann"; "domain:b.c"; "subdomain:www.b.c";
        "phone:+1 555 0100"]}.
Proof. repeat apply conj; vm_compute; reflexivity. Qed.


(** *** Invariants of the heap *)

Section HeapInvariant.

Variable Ih : store → Prop.
Variable plugin_name : string.
Hypothesis Ih_stamp : ∀ σ l d,
  Ih σ → σ !! l = Some d → Ih (<[l := <["source" := VStr plugin_name]> d]> σ).

Definition preserves {A} (m : M world A) : Prop :=
  ∀ w, Ih (heap w) → Ih (heap (m w).1).

Lemma preserves_ret {A} (a : A) : preserves (ret a).
Proof. by intros w Hw. Qed.

Lemma preserves_raise {A} e : preserves (raise e : M world A).
Proof. by intros w Hw. Qed.

Lemma preserves_bind {A B} (m : M world A) (k : A → M world B) :
  preserves m → (∀ a, preserves (k a)) → preserves (bind m k).
Proof.
  intros Hm Hk w Hw. unfold bind. specialize (Hm w Hw).
  destruct (m w) as [w' [a|e]]; simpl in *; [by apply Hk | done].
Qed.

Lemma preserves_for_each {A} (xs : list A) body :
  (∀ x, preserves (body x)) → preserves (for_each xs body).
Proof.
  intros Hb. induction xs as [|x xs IH]; simpl.
  - apply preserves_ret.
  - apply preserves_bind; [apply Hb | by intros _].
Qed.

Lemma preserves_now : preserves now.
Proof. by intros w Hw. Qed.

Lemma preserves_update f : preserves (update f).
Proof. by intros w Hw. Qed.

Lemma preserves_deref l : preserves (deref l).
Proof. intros w Hw. unfold deref. by destruct (heap w !! l). Qed.

Lemma preserves_stamp l : preserves (setitem l "source" (VStr plugin_name)).
Proof.
  intros w Hw. unfold setitem, bind, deref.
  destruct (heap w !! l) as [d|] eqn:Hl; simpl; [by apply Ih_stamp | done].
Qed.

Lemma preserves_get_findings result : preserves (get_findings result).
Proof.
  destruct result; try apply preserves_raise.
  apply preserves_bind; [apply preserves_deref | intros; apply preserves_ret].
Qed.

Lemma preserves_lookup_kind findings key : preserves (lookup_kind findings key).
Proof.
  destruct findings as [[]|]; simpl;
    repeat case_match;
    first [ apply preserves_raise | apply preserves_ret
          | apply preserves_bind;
            [apply preserves_deref | intros; apply preserves_ret] ].
Qed.

Lemma preserves_for_kind findings key body :
  (∀ x, preserves (body x)) → preserves (for_kind findings key body).
Proof.
  intros Hb. apply preserves_bind; [apply preserves_lookup_kind |].
  intros [x|]; [by apply preserves_for_each | apply preserves_ret].
Qed.

Ltac scalar_body :=
  let v := fresh in
  intros v; destruct v; simpl;
  first [ apply preserves_raise | apply preserves_ret | apply preserves_update
        | apply preserves_bind;
          [first [apply preserves_update | apply preserves_stamp]
          | intros; apply preserves_update] ].

Lemma preserves_extract findings : preserves (extract plugin_name findings).
Proof.
  unfold extract.
  repeat (apply preserves_bind; [apply preserves_for_kind; scalar_body | intros _]).
  apply preserves_for_kind; scalar_body.
Qed.

Lemma preserves_add_result result : preserves (add_result plugin_name result).
Proof.
  unfold add_result.
  apply preserves_bind; [apply preserves_now | intros ts].
  apply preserves_bind; [apply preserves_update | intros _].
  apply preserves_bind; [apply preserves_get_findings | intros findings].
  apply preserves_extract.
Qed.

End HeapInvariant.


(** [stamped n σ σ']: the heap [σ'] is [σ] where some dicts had their
    ['source'] set to [n], and nothing else happened. *)
Definition stamped (n : string) (σ σ' : store) : Prop :=
  Forall2 (λ d d', d' = d ∨ d' = <["source" := VStr n]> d) σ σ'.

Lemma stamped_refl n σ : stamped n σ σ.
Proof. apply Forall_Forall2_diag, Forall_forall. auto. Qed.

Lemma stamped_stamp n σ0 σ l d :
  stamped n σ0 σ → σ !! l = Some d →
  stamped n σ0 (<[l := <["source" := VStr n]> d]> σ).
Proof.
  intros HF Hl.
  destruct (Forall2_lookup_r _ _ _ _ _ HF Hl) as (d0 & Hl0 & Hd).
  rewrite <- (list_insert_id σ0 l d0 Hl0).
  apply Forall2_insert; [done |].
  destruct Hd as [->| ->]; [by right |].
  right. by rewrite insert_insert_eq.
Qed.

Lemma add_result_stamped n result w :
  stamped n (heap w) (heap (add_result n result w).1).
Proof.
  apply (preserves_add_result (stamped n (heap w)) n).
  - intros σ l d. apply stamped_stamp.
  - apply stamped_refl.
Qed.

(** The view of the heap that forgets every ['source']. *)
Definition erase (σ : store) : store := delete "source" <$> σ.

Lemma stamped_erase n σ σ' : stamped n σ σ' → erase σ' = erase σ.
Proof.
  unfold erase. induction 1 as [|d d' σ σ' Hd _ IH]; [done |].
  rewrite !fmap_cons. f_equal; [| done].
  destruct Hd as [->| ->]; [done | by rewrite delete_insert_eq].
Qed.

Lemma add_result_erase n result w :
  erase (heap (add_result n result w).1) = erase (heap w).
Proof. eapply stamped_erase, add_result_stamped. Qed.





(** *** Two runs side by side *)

Definition res_rel {A} (Q : A → A → Prop) (r1 r2 : res A) : Prop :=
  match r1, r2 with
  | Ok a, Ok b => Q a b
  | Raise e1, Raise e2 => e1 = e2
  | _, _ => False
  end.

(** Two dicts with the same fields, ['source'] apart. *)
Definition same_fields (d1 d2 : dict) : Prop :=
  ∀ k, k ≠ "source" → d1 !! k = d2 !! k.

Section Simulation.

(** [H] relates the heaps of the two runs, [G] their aggregators. What
    [add_result] reads of the heap must agree under [H], and each of its
    writes must keep [H] and [G]. *)
Variable H : store → store → Prop.
Variable G : aggregator → aggregator → Prop.

Hypothesis H_lookup : ∀ σ1 σ2 l,
  H σ1 σ2 → option_Forall2 same_fields (σ1 !! l) (σ2 !! l).
Hypothesis H_stamp : ∀ σ1 σ2 l d1 d2 v,
  H σ1 σ2 → σ1 !! l = Some d1 → σ2 !! l = Some d2 →
  H (<[l := <["source" := v]> d1]> σ1) (<[l := <["source" := v]> d2]> σ2).
Hypothesis G_raw_results : ∀ a1 a2 f1 f2,
  G a1 a2 → G (with_raw_results f1 a1) (with_raw_results f2 a2).
Hypothesis G_emails : ∀ a1 a2 x,
  G a1 a2 → G (with_emails (add x) a1) (with_emails (add x) a2).
Hypothesis G_usernames : ∀ a1 a2 x,
  G a1 a2 → G (with_usernames (add x) a1) (with_usernames (add x) a2).
Hypothesis G_domains : ∀ a1 a2 x,
  G a1 a2 → G (with_domains (add x) a1) (with_domains (add x) a2).
Hypothesis G_subdomains : ∀ a1 a2 x,
  G a1 a2 → G (with_subdomains (add x) a1) (with_subdomains (add x) a2).
Hypothesis G_phone_numbers : ∀ a1 a2 x,
  G a1 a2 → G (with_phone_numbers (add x) a1) (with_phone_numbers (add x) a2).
Hypothesis G_urls : ∀ a1 a2 x,
  G a1 a2 → G (with_urls (add x) a1) (with_urls (add x) a2).
Hypothesis G_social_profiles : ∀ a1 a2 e,
  G a1 a2 →
  G (with_social_profiles (append e) a1) (with_social_profiles (append e) a2).
Hypothesis G_accounts : ∀ a1 a2 e,
  G a1 a2 → G (with_accounts (append e) a1) (with_accounts (append e) a2).
Hypothesis G_breaches : ∀ a1 a2 e,
  G a1 a2 → G (with_breaches (append e) a1) (with_breaches (append e) a2).
Hypothesis G_sources : ∀ a1 a2 k n,
  G a1 a2 →
  G (with_sources (append_source k n) a1) (with_sources (append_source k n) a2).

Definition R (w1 w2 : world) : Prop :=
  H (heap w1) (heap w2) ∧ G (agg w1) (agg w2).

Definition sim {A} (Q : A → A → Prop) (m1 m2 : M world A) : Prop :=
  ∀ w1 w2, R w1 w2 → R (m1 w1).1 (m2 w2).1 ∧ res_rel Q (m1 w1).2 (m2 w2).2.

Lemma sim_ret {A} (Q : A → A → Prop) a b : Q a b → sim Q (ret a) (ret b).
Proof. by intros HQ w1 w2 HR. Qed.

Lemma sim_raise {A} (Q : A → A → Prop) e : sim Q (raise e) (raise e).
Proof. by intros w1 w2 HR. Qed.

Lemma sim_bind {A B} (Q : A → A → Prop) (Q' : B → B → Prop) m1 m2 k1 k2 :
  sim Q m1 m2 → (∀ a b, Q a b → sim Q' (k1 a) (k2 b)) →
  sim Q' (bind m1 k1) (bind m2 k2).
Proof.
  intros Hm Hk w1 w2 HR. unfold bind.
  destruct (Hm w1 w2 HR) as [HR' Hres].
  destruct (m1 w1) as [w1' [a|e1]], (m2 w2) as [w2' [b|e2]];
    simpl in *; try done.
  by apply Hk.
Qed.

Lemma sim_for_each {A} (xs : list A) body1 body2 :
  (∀ x, sim eq (body1 x) (body2 x)) →
  sim eq (for_each xs body1) (for_each xs body2).
Proof.
  intros Hb. induction xs as [|x xs IH]; simpl.
  - by apply sim_ret.
  - eapply sim_bind; [apply Hb | by intros _ _ _].
Qed.

Lemma sim_now : sim (λ _ _, True) now now.
Proof. by intros w1 w2 HR. Qed.

Lemma sim_update f1 f2 :
  (∀ a1 a2, G a1 a2 → G (f1 a1) (f2 a2)) → sim eq (update f1) (update f2).
Proof. intros Hf w1 w2 [HH HG]. repeat split; simpl; auto. Qed.

Lemma sim_deref l : sim same_fields (deref l) (deref l).
Proof.
  intros w1 w2 [HH HG]. unfold deref.
  pose proof (H_lookup _ _ l HH) as Hl.
  destruct (heap w1 !! l) as [d1|] eqn:E1, (heap w2 !! l) as [d2|] eqn:E2;
    inversion Hl; subst; simpl; repeat split; auto.
Qed.

Lemma sim_stamp l v : sim eq (setitem l "source" v) (setitem l "source" v).
Proof.
  intros w1 w2 [HH HG]. unfold setitem, bind, deref.
  pose proof (H_lookup _ _ l HH) as Hl.
  destruct (heap w1 !! l) as [d1|] eqn:E1, (heap w2 !! l) as [d2|] eqn:E2;
    inversion Hl; subst; simpl; repeat split; auto.
  by apply H_stamp.
Qed.

Lemma sim_get_findings result :
  sim eq (get_findings result) (get_findings result).
Proof.
  destruct result; try apply sim_raise.
  eapply sim_bind; [apply sim_deref |].
  intros d1 d2 Hd. apply sim_ret. by apply Hd.
Qed.

Lemma sim_lookup_kind findings key :
  key ≠ "source" → sim eq (lookup_kind findings key) (lookup_kind findings key).
Proof.
  intros Hk. destruct findings as [[]|]; simpl; repeat case_match;
    first [ apply sim_raise | by apply sim_ret | idtac ].
  eapply sim_bind; [apply sim_deref |].
  intros d1 d2 Hd. apply sim_ret. by apply Hd.
Qed.

Lemma sim_for_kind findings key body1 body2 :
  key ≠ "source" → (∀ x, sim eq (body1 x) (body2 x)) →
  sim eq (for_kind findings key body1) (for_kind findings key body2).
Proof.
  intros Hk Hb. eapply sim_bind; [by apply sim_lookup_kind |].
  intros v ? <-. destruct v; [by apply sim_for_each | by apply sim_ret].
Qed.

Ltac sim_body :=
  let v := fresh in
  intros v; destruct v; simpl;
  first [ apply sim_raise | by apply sim_ret
        | apply sim_update; auto
        | eapply sim_bind;
          [first [apply sim_update; auto | apply sim_stamp]
          | intros; apply sim_update; auto] ].

Lemma sim_extract n findings :
  sim eq (extract n findings) (extract n findings).
Proof.
  unfold extract.
  repeat (eapply sim_bind;
          [apply sim_for_kind; [done | sim_body] | intros _ _ _]).
  apply sim_for_kind; [done | sim_body].
Qed.

Lemma sim_add_result n result :
  sim eq (add_result n result) (add_result n result).
Proof.
  unfold add_result.
  eapply sim_bind; [apply sim_now | intros t1 t2 _].
  eapply sim_bind; [apply sim_update; auto | intros _ _ _].
  eapply sim_bind; [apply sim_get_findings | intros f ? <-].
  apply sim_extract.
Qed.

End Simulation.


(** *** What [add_result] reads of a result *)

(** Two aggregators that hold the same sets, lists and source index; their
    [raw_results] may differ. *)
Definition same_aggregated (a1 a2 : aggregator) : Prop :=
  emails a1 = emails a2 ∧ usernames a1 = usernames a2
  ∧ domains a1 = domains a2 ∧ subdomains a1 = subdomains a2
  ∧ phone_numbers a1 = phone_numbers a2 ∧ urls a1 = urls a2
  ∧ social_profiles a1 = social_profiles a2 ∧ accounts a1 = accounts a2
  ∧ breaches a1 = breaches a2 ∧ sources a1 = sources a2.

Lemma same_aggregated_refl a : same_aggregated a a.
Proof. by repeat split. Qed.

Lemma extract_sim_same_aggregated n findings :
  sim eq same_aggregated eq (extract n findings) (extract n findings).
Proof.
  apply sim_extract.
  - intros σ1 σ2 l <-. destruct (σ1 !! l); by constructor.
  - by intros σ1 σ2 l d1 d2 v <- -> [= ->].
  - intros ??? (?&?&?&?&?&?&?&?&?&?); repeat split; simpl; congruence.
  - intros ??? (?&?&?&?&?&?&?&?&?&?); repeat split; simpl; congruence.
  - intros ??? (?&?&?&?&?&?&?&?&?&?); repeat split; simpl; congruence.
  - intros ??? (?&?&?&?&?&?&?&?&?&?); repeat split; simpl; congruence.
  - intros ??? (?&?&?&?&?&?&?&?&?&?); repeat split; simpl; congruence.
  - intros ??? (?&?&?&?&?&?&?&?&?&?); repeat split; simpl; congruence.
  - intros ??? (?&?&?&?&?&?&?&?&?&?); repeat split; simpl; congruence.
  - intros ??? (?&?&?&?&?&?&?&?&?&?); repeat split; simpl; congruence.
  - intros ??? (?&?&?&?&?&?&?&?&?&?); repeat split; simpl; congruence.
  - intros ???? (?&?&?&?&?&?&?&?&?&?); repeat split; simpl; congruence.
Qed.

Lemma extract_same_aggregated n findings w1 w2 :
  heap w1 = heap w2 → same_aggregated (agg w1) (agg w2) →
  heap (extract n findings w1).1 = heap (extract n findings w2).1
  ∧ same_aggregated (agg (extract n findings w1).1)
      (agg (extract n findings w2).1)
  ∧ (extract n findings w1).2 = (extract n findings w2).2.
Proof.
  intros Hh Ha.
  destruct (extract_sim_same_aggregated n findings w1 w2) as [[HH HG] Hres];
    [by split |].
  split; [done |]. split; [done |].
  destruct (extract n findings w1).2 as [[]|],
           (extract n findings w2).2 as [[]|]; simpl in Hres; by subst.
Qed.

Lemma add_result_reads_findings_only n r1 r2 d1 d2 w :
  heap w !! r1 = Some d1 → heap w !! r2 = Some d2 →
  d1 !! "findings" = d2 !! "findings" →
  heap (add_result n (VRef r1) w).1 = heap (add_result n (VRef r2) w).1
  ∧ same_aggregated (agg (add_result n (VRef r1) w).1)
      (agg (add_result n (VRef r2) w).1)
  ∧ (add_result n (VRef r1) w).2 = (add_result n (VRef r2) w).2.
Proof.
  intros H1 H2 Hf.
  unfold add_result, bind, now, update, get_findings, bind, deref, ret; simpl.
  rewrite H1, H2, Hf; simpl.
  apply extract_same_aggregated; [done | by repeat split].
Qed.

(** C10. [add_result] does not look at ['status']: a result and the same
    result with ['status'] set to any other value are merged alike. The two
    calls, from the same state, end with the same heap, the same sets, lists
    and source index, and the same outcome. *)
Theorem add_result_ignores_status
    (n : string) (r1 r2 : loc) (d : dict) (status : value) (w : world) :
  heap w !! r1 = Some d →
  heap w !! r2 = Some (<["status" := status]> d) →
  heap (add_result n (VRef r1) w).1 = heap (add_result n (VRef r2) w).1
  ∧ same_aggregated (agg (add_result n (VRef r1) w).1)
      (agg (add_result n (VRef r2) w).1)
  ∧ (add_result n (VRef r1) w).2 = (add_result n (VRef r2) w).2.
Proof.
  intros H1 H2. eapply add_result_reads_findings_only; [done | done |].
  by rewrite lookup_insert_ne.
Qed.


Lemma add_result_ignores_status_witness :
  let w := World status_heap 0 init in
  heap (add_result "holehe" (VRef 0) w).1
  = heap (add_result "holehe" (VRef 1) w).1
  ∧ same_aggregated (agg (add_result "holehe" (VRef 0) w).1)
      (agg (add_result "holehe" (VRef 1) w).1)
  ∧ (add_result "holehe" (VRef 0) w).2 = (add_result "holehe" (VRef 1) w).2.
Proof.
  intros w.
  apply (add_result_ignores_status "holehe" 0 1 status_result (VStr "failed") w);
    reflexivity.
Defined.

(** *** Confidence *)

Lemma source_count_distinct srcs :
  source_count srcs = length (remove_dups srcs).
Proof.
  unfold source_count.
  rewrite <- (size_list_to_set (C := gset string) (remove_dups srcs))
    by apply NoDup_remove_dups.
  f_equal. apply set_eq. intros x.
  by rewrite !elem_of_list_to_set, elem_of_remove_dups.
Qed.

Lemma score_tiers n :
  (3 ≤ n → score n = 100%Z) ∧ (n = 2 → score n = 75%Z)
  ∧ (n ≤ 1 → score n = 50%Z).
Proof.
  unfold score. repeat split; intros Hn.
  - by destruct (Nat.leb_spec 3 n); [| lia].
  - by subst.
  - destruct (Nat.leb_spec 3 n); [lia |].
    by destruct (Nat.eqb_spec n 2); [lia |].
Qed.

Lemma score_values n : score n = 50%Z ∨ score n = 75%Z ∨ score n = 100%Z.
Proof. unfold score. repeat case_match; auto. Qed.

Lemma score_mono n m : n ≤ m → (score n ≤ score m)%Z.
Proof.
  intros Hnm. unfold score.
  destruct (Nat.leb_spec 3 n), (Nat.leb_spec 3 m); try lia.
  - destruct (Nat.eqb_spec n 2); lia.
  - destruct (Nat.eqb_spec n 2), (Nat.eqb_spec m 2); lia.
Qed.

(** C3. Every key of the source index has a confidence, computed from the
    number [n] of distinct collector names in its list: 100 from three names
    on, 75 for two, 50 for one or none. The value is one of 50, 75 and 100,
    and of two keys the one with more distinct names has the greater or
    equal confidence. *)
Theorem confidence_three_tiers
    (a : aggregator) (k1 k2 : string) (s1 s2 : list string) :
  sources a !! k1 = Some s1 →
  sources a !! k2 = Some s2 →
  let n1 := length (remove_dups s1) in
  let n2 := length (remove_dups s2) in
  ∃ c1 c2 : Z,
    _calculate_confidence a !! k1 = Some c1
    ∧ _calculate_confidence a !! k2 = Some c2
    ∧ (3 ≤ n1 → c1 = 100%Z) ∧ (n1 = 2 → c1 = 75%Z) ∧ (n1 ≤ 1 → c1 = 50%Z)
    ∧ (c1 = 50%Z ∨ c1 = 75%Z ∨ c1 = 100%Z)
    ∧ (n1 ≤ n2 → (c1 ≤ c2)%Z).
Proof.
  intros H1 H2 n1 n2.
  exists (score n1), (score n2). unfold _calculate_confidence.
  rewrite !lookup_fmap, H1, H2; simpl.
  rewrite !source_count_distinct. fold n1 n2.
  destruct (score_tiers n1) as (?&?&?).
  repeat split; auto using score_values, score_mono.
Qed.

Lemma confidence_three_tiers_witness :
  ∃ c1 c2 : Z,
    _calculate_confidence corroborated !! "domain:b.c" = Some c1
    ∧ _calculate_confidence corroborated !! "email:a@b.c" = Some c2
    ∧ c1 = 50%Z ∧ c2 = 100%Z ∧ (c1 ≤ c2)%Z.
Proof.
  destruct (confidence_three_tiers corroborated "domain:b.c" "email:a@b.c"
              ["sublist3r"] ["holehe"; "hibp"; "holehe"; "sherlock"]
              eq_refl eq_refl)
    as (c1 & c2 & E1 & E2 & _ & _ & Hone & _ & Hle).
  exists c1, c2. split; [exact E1 |]. split; [exact E2 |].
  split; [apply Hone; vm_compute; lia |].
  split; [| apply Hle; vm_compute; lia].
  vm_compute in E2. by injection E2 as <-.
Defined.

(** The confidence map has exactly the keys of the source index. *)
Lemma confidence_keys a : dom (_calculate_confidence a) = dom (sources a).
Proof. unfold _calculate_confidence. apply dom_fmap_L. Qed.


(** *** Running [add_result] on given findings *)

Lemma bind_now {A} (k : nat → M world A) w :
  bind now k w = k (clock w) (World (heap w) (S (clock w)) (agg w)).
Proof. reflexivity. Qed.

Lemma bind_update {A} f (k : unit → M world A) w :
  bind (update f) k w = k tt (World (heap w) (clock w) (f (agg w))).
Proof. reflexivity. Qed.

Lemma bind_get_findings {A} r rd (k : option value → M world A) w :
  heap w !! r = Some rd →
  bind (get_findings (VRef r)) k w = k (rd !! "findings") w.
Proof. intros Hr. unfold get_findings, bind, deref. by rewrite Hr. Qed.

Lemma for_kind_absent f fd key body w :
  heap w !! f = Some fd → fd !! key = None →
  for_kind (Some (VRef f)) key body w = (w, Ok tt).
Proof.
  intros Hf Hk. unfold for_kind, lookup_kind, bind, deref.
  by rewrite Hf; simpl; rewrite Hk.
Qed.

Lemma for_kind_present f fd key x body w :
  heap w !! f = Some fd → fd !! key = Some x →
  for_kind (Some (VRef f)) key body w = for_each (as_list x) body w.
Proof.
  intros Hf Hk. unfold for_kind, lookup_kind, bind, deref.
  by rewrite Hf; simpl; rewrite Hk.
Qed.

Lemma bind_for_kind_absent {A} f fd key body (k : unit → M world A) w :
  heap w !! f = Some fd → fd !! key = None →
  bind (for_kind (Some (VRef f)) key body) k w = k tt w.
Proof.
  intros Hf Hk. unfold bind. by erewrite for_kind_absent.
Qed.

Lemma bind_for_kind_present {A} f fd key x body (k : unit → M world A) w :
  heap w !! f = Some fd → fd !! key = Some x →
  bind (for_kind (Some (VRef f)) key body) k w
  = bind (for_each (as_list x) body) k w.
Proof.
  intros Hf Hk. unfold bind. by erewrite for_kind_present.
Qed.

(** A continuation that does nothing on any state with the heap of [w]. *)
Lemma bind_idle (m : M world unit) (k : unit → M world unit) w :
  heap (m w).1 = heap w →
  (∀ w', heap w' = heap w → k tt w' = (w', Ok tt)) →
  bind m k w = m w.
Proof.
  intros Hh Hk. unfold bind.
  destruct (m w) as [w' [[]|e]]; simpl in *; [by apply Hk | done].
Qed.

Lemma kind_body_str k n s w :
  kind_body k n (VStr s) w
  = (World (heap w) (clock w) (scalar_step k n (agg w) s), Ok tt).
Proof. by destruct k. Qed.

Lemma kind_body_heap k n x w : heap (kind_body k n x w).1 = heap w.
Proof. by destruct k, x. Qed.

Lemma for_each_kind_body_heap k n xs w :
  heap (for_each xs (kind_body k n) w).1 = heap w.
Proof.
  revert w. induction xs as [|x xs IH]; intros w; [done |].
  simpl. unfold bind. pose proof (kind_body_heap k n x w) as Hx.
  destruct (kind_body k n x w) as [w' [[]|e]]; simpl in *; [| done].
  by rewrite IH.
Qed.

(** A result whose findings hold the single scalar kind [k]: the call
    records the raw result and runs the loop of that kind. *)
Lemma add_result_single_kind k n r f x w :
  heap w !! r = Some {[ "findings" := VRef f ]} →
  heap w !! f = Some {[ kind_key k := x ]} →
  add_result n (VRef r) w
  = for_each (as_list x) (kind_body k n)
      (World (heap w) (S (clock w))
         (with_raw_results (append (RawResult n (clock w) (VRef r))) (agg w))).
Proof.
  intros Hr Hf. unfold add_result.
  rewrite bind_now, bind_update.
  erewrite bind_get_findings by exact Hr.
  rewrite lookup_singleton_eq. unfold extract.
  destruct k; simpl kind_key in *; simpl kind_body.
  all: repeat (erewrite bind_for_kind_absent;
                 [| exact Hf | by apply lookup_singleton_ne]).
  all: erewrite bind_for_kind_present;
         [| exact Hf | by apply lookup_singleton_eq].
  all: cbn [heap clock agg].
  all: apply bind_idle;
         [ first [ apply (for_each_kind_body_heap Emails n)
                 | apply (for_each_kind_body_heap Usernames n)
                 | apply (for_each_kind_body_heap Domains n)
                 | apply (for_each_kind_body_heap Subdomains n)
                 | apply (for_each_kind_body_heap PhoneNumbers n)
                 | apply (for_each_kind_body_heap Urls n) ] |].
  all: intros w' Hw'; simpl in Hw'; rewrite <- Hw' in Hf.
  all: repeat (erewrite bind_for_kind_absent;
                 [| exact Hf | by apply lookup_singleton_ne]).
  all: by erewrite for_kind_absent;
         [| exact Hf | by apply lookup_singleton_ne].
Qed.


Lemma add_result_single_value k n r f x s w :
  heap w !! r = Some {[ "findings" := VRef f ]} →
  heap w !! f = Some {[ kind_key k := x ]} →
  as_list x = [VStr s] →
  add_result n (VRef r) w
  = (World (heap w) (S (clock w))
       (scalar_step k n
          (with_raw_results (append (RawResult n (clock w) (VRef r))) (agg w))
          s),
     Ok tt).
Proof.
  intros Hr Hf Hx. rewrite (add_result_single_kind k n r f x) by done.
  rewrite Hx. simpl. unfold bind. by rewrite kind_body_str.
Qed.

Lemma kind_set_scalar_step k n a s :
  kind_set k (scalar_step k n a s) = add (normalize k s) (kind_set k a).
Proof. by destruct k. Qed.

Lemma kind_set_with_raw_results k f a :
  kind_set k (with_raw_results f a) = kind_set k a.
Proof. by destruct k. Qed.

(** *** Normalisation of scalar values *)

Lemma alike_normalize k v1 v2 :
  alike k v1 v2 → normalize k v1 = normalize k v2.
Proof.
  intros (a1 & c1 & b1 & a2 & c2 & b2 & -> & -> & Ha1 & Hb1 & Ha2 & Hb2 & Hc).
  unfold normalize. destruct (case_folded k).
  - rewrite !PyStrTheory.strip_lower_pad by done. by rewrite Hc.
  - rewrite !PyStrTheory.strip_pad by done. by rewrite Hc.
Qed.

(** C7, as the code has it. Two collectors report a value of the same
    scalar kind, in spellings that differ in the white space around the
    value and, for emails, domains and subdomains only, in the case of its
    letters: the set of that kind ends up with one element. *)
Theorem alike_values_collapse
    (k : scalar_kind) (n1 n2 v1 v2 : string) :
  alike k v1 v2 →
  let w := after (pair_heap k v1 v2) [(n1, VRef 0); (n2, VRef 2)] in
  kind_set k (agg w) = {[ normalize k v1 ]}
  ∧ size (kind_set k (agg w)) = 1.
Proof.
  intros Hv w.
  assert (kind_set k (agg w) = {[ normalize k v1 ]}) as ->;
    [| split; [done | apply size_singleton]].
  subst w. unfold after, add_results, pair_heap. simpl for_each.
  unfold bind.
  erewrite (add_result_single_value k n1 0 1 (VList [VStr v1]) v1);
    [| reflexivity..].
  erewrite (add_result_single_value k n2 2 3 (VStr v2) v2);
    [| reflexivity..].
  cbn [fst agg clock heap ret].
  rewrite !kind_set_scalar_step, !kind_set_with_raw_results,
    kind_set_scalar_step, kind_set_with_raw_results.
  rewrite <- (alike_normalize k v1 v2 Hv).
  assert (kind_set k init = ∅) as -> by by destruct k.
  unfold add. rewrite (right_id_L ∅ (∪)). apply (idemp_L (∪)).
Qed.

Lemma alike_values_collapse_witness :
  let w := after (pair_heap Emails " Ann@B.c" "ann@b.C  ")
             [("holehe", VRef 0); ("hibp", VRef 2)] in
  kind_set Emails (agg w) = {[ normalize Emails " Ann@B.c" ]}
  ∧ size (kind_set Emails (agg w)) = 1.
Proof.
  apply (alike_values_collapse Emails "holehe" "hibp" " Ann@B.c" "ann@b.C  ").
  exists " ", "Ann@B.c", "", "", "ann@b.C", "  ".
  repeat apply conj; vm_compute; first [reflexivity | exact I].
Defined.

(** C7, the claim as stated fails for user names: two spellings that differ
    in the case of one letter are two elements of the set. *)
Lemma usernames_keep_their_case :
  PyStr.lower "User" = PyStr.lower "user"
  ∧ size (usernames (agg (after spellings_heap [("sherlock", VRef 0)]))) = 2.
Proof. split; vm_compute; reflexivity. Qed.


(** *** Deduplication of structured records *)

Section Dedup.

Variable key : dict → res string.
Variable σ : store.

Local Abbreviation kf := (key_of key σ).
Local Abbreviation dedup_with := (dedup_loop key σ).

Definition first_unseen (items : list entry) (seen : gset string)
    (i : nat) (e : entry) (k : string) : Prop :=
  (k ∉ seen) ∧ first_with kf items i e k.

Lemma dedup_with_spec items : ∀ seen unique out,
  dedup_with items seen unique = Ok out →
  ∃ kept,
    out = unique ++ kept
    ∧ sublist kept items
    ∧ NoDup (kf <$> kept)
    ∧ (∀ e k, e ∈ kept → kf e = Ok k → k ∉ seen)
    ∧ (∀ i e k, first_unseen items seen i e k → e ∈ kept)
    ∧ (∀ e, e ∈ kept → ∃ i k, first_unseen items seen i e k).
Proof.
  induction items as [|item rest IH]; intros seen unique out; simpl.
  - intros [= <-]. exists []. rewrite app_nil_r.
    repeat split; [constructor | constructor | by intros ?? ?%elem_of_nil | |].
    + intros i e k (_ & Hi & _). by rewrite lookup_nil in Hi.
    + by intros e ?%elem_of_nil.
  - destruct (key_of key σ item) as [k0|] eqn:Hk0; [| done].
    destruct (decide (k0 ∈ seen)) as [Hin|Hnin]; intros Hout.
    + destruct (IH _ _ _ Hout) as (kept & -> & Hsub & Hnd & Hseen & Hfst & Hall).
      exists kept. repeat split; auto.
      * by apply sublist_cons.
      * intros [|i] e k (Hk & Hi & Hke & Hbefore).
        { simpl in Hi. injection Hi as <-. congruence. }
        apply (Hfst i e k). repeat split; auto.
        intros j e' Hj He'. apply (Hbefore (S j) e'); [lia | done].
      * intros e He. destruct (Hall e He) as (i & k & Hk & Hi & Hke & Hbefore).
        exists (S i), k. repeat split; auto.
        intros [|j] e' Hj He'; simpl in He'.
        { injection He' as <-. congruence. }
        apply (Hbefore j e'); [lia | done].
    + destruct (IH _ _ _ Hout) as (kept & -> & Hsub & Hnd & Hseen & Hfst & Hall).
      exists (item :: kept). unfold append. rewrite <- app_assoc.
      assert (∀ e k, e ∈ kept → kf e = Ok k → k ≠ k0 ∧ k ∉ seen) as Hseen'.
      { intros e k He Hke. specialize (Hseen e k He Hke).
        unfold add in Hseen. set_unfold in Hseen. split; intros ?; apply Hseen; auto. }
      repeat split; auto.
      * by apply sublist_skip.
      * rewrite fmap_cons. apply NoDup_cons. split; [| done].
        rewrite Hk0. intros (e & Hke & He)%list_elem_of_fmap.
        by destruct (Hseen' e k0 He).
      * intros e k [->|He]%elem_of_cons Hke; [congruence |].
        by destruct (Hseen' e k He Hke).
      * intros [|i] e k (Hk & Hi & Hke & Hbefore).
        { simpl in Hi. injection Hi as <-. apply elem_of_cons. by left. }
        apply elem_of_cons. right. apply (Hfst i e k).
        assert (k ≠ k0) as Hne.
        { intros ->. apply (Hbefore 0 item); [lia | done | done]. }
        repeat split; auto.
        -- unfold add. set_unfold. intros [?|?]; auto.
        -- intros j e' Hj He'. apply (Hbefore (S j) e'); [lia | done].
      * intros e [->|He]%elem_of_cons.
        { exists 0, k0. repeat split; auto. intros j e' Hj. lia. }
        destruct (Hall e He) as (i & k & Hk & Hi & Hke & Hbefore).
        destruct (Hseen' e k He Hke) as [Hne Hk'].
        exists (S i), k. repeat split; auto.
        intros [|j] e' Hj He'; simpl in He'.
        { injection He' as <-. congruence. }
        apply (Hbefore j e'); [lia | done].
Qed.

Lemma dedup_with_first_seen items out :
  dedup_with items ∅ [] = Ok out → first_seen_kept kf items out.
Proof.
  intros Hout.
  destruct (dedup_with_spec _ _ _ _ Hout) as (kept & -> & Hsub & Hnd & _ & Hfst & Hall).
  simpl. repeat split; auto.
  - intros i e k Hf. apply (Hfst i e k). split; [set_solver | done].
  - intros e He. destruct (Hall e He) as (i & k & _ & Hf). eauto.
Qed.

(** Of the items that share a key, the report has the first one only. *)
Lemma first_seen_kept_only items out i e k :
  first_seen_kept kf items out → first_with kf items i e k →
  e ∈ out ∧ ∀ e', e' ∈ out → kf e' = Ok k → e' = e.
Proof.
  intros (Hsub & Hnd & Hfst & Hall) Hf. split; [by eapply Hfst |].
  intros e' He' Hke'.
  destruct (Hall e' He') as (i' & k' & Hi' & Hk' & Hbefore').
  assert (k' = k) as -> by congruence.
  destruct Hf as (Hi & Hk & Hbefore).
  destruct (Nat.lt_trichotomy i i') as [Hlt|[->|Hgt]].
  - by destruct (Hbefore' i e Hlt Hi).
  - congruence.
  - by destruct (Hbefore i' e' Hgt Hi').
Qed.

End Dedup.


(** A record without ['platform'] is keyed under ["unknown"]. *)
Lemma profile_key_unknown (d : dict) (u : string) :
  d !! "platform" = None → d !! "url" = Some (VStr u) →
  profile_key d = Ok ("unknown:" +:+ u).
Proof. intros Hp Hu. unfold profile_key, get_or. by rewrite Hp, Hu. Qed.

Lemma account_key_unknown (d : dict) (u : string) :
  d !! "platform" = None → d !! "account" = Some (VStr u) →
  account_key d = Ok ("unknown:" +:+ u).
Proof. intros Hp Hu. unfold account_key, get_or. by rewrite Hp, Hu. Qed.

(** C6, as the code has it. In the [data] section of the report the social
    profiles are deduplicated by platform and url (or user name), the
    accounts by platform and account (or email): of the records that share
    a key the first one seen is there and no other. The breaches are the
    list as it was accumulated. *)
Theorem report_keeps_first_seen (σ : store) (a : aggregator) (r : report) :
  get_aggregated_results σ a = Ok r →
  let profiles := data_social_profiles (report_data r) in
  let accts := data_accounts (report_data r) in
  first_seen_kept (key_of profile_key σ) (social_profiles a) profiles
  ∧ first_seen_kept (key_of account_key σ) (accounts a) accts
  ∧ (∀ i e k, first_with (key_of profile_key σ) (social_profiles a) i e k →
       e ∈ profiles
       ∧ ∀ e', e' ∈ profiles → key_of profile_key σ e' = Ok k → e' = e)
  ∧ (∀ i e k, first_with (key_of account_key σ) (accounts a) i e k →
       e ∈ accts
       ∧ ∀ e', e' ∈ accts → key_of account_key σ e' = Ok k → e' = e)
  ∧ data_breaches (report_data r) = breaches a.
Proof.
  unfold get_aggregated_results, _deduplicate_profiles, _deduplicate_accounts.
  destruct (dedup_loop profile_key σ (social_profiles a) ∅ []) as [ps|] eqn:Hp;
    [| done].
  destruct (dedup_loop account_key σ (accounts a) ∅ []) as [acs|] eqn:Ha;
    [| done].
  intros [= <-]; simpl.
  apply dedup_with_first_seen in Hp, Ha.
  repeat split; try apply Hp; try apply Ha.
  - by eapply first_seen_kept_only.
  - intros e'. by eapply first_seen_kept_only.
  - by eapply first_seen_kept_only.
  - intros e'. by eapply first_seen_kept_only.
Qed.

Lemma report_keeps_first_seen_witness :
  let w := after twins_heap twins_feed in
  ∃ r, get_aggregated_results (heap w) (agg w) = Ok r
    ∧ first_seen_kept (key_of profile_key (heap w)) (social_profiles (agg w))
        (data_social_profiles (report_data r))
    ∧ data_breaches (report_data r) = breaches (agg w).
Proof.
  intros w.
  destruct (get_aggregated_results (heap w) (agg w)) as [r|e] eqn:Hr.
  - exists r. split; [reflexivity |].
    destruct (report_keeps_first_seen (heap w) (agg w) r Hr)
      as (Hp & _ & _ & _ & Hb).
    split; [exact Hp | exact Hb].
  - vm_compute in Hr. discriminate Hr.
Defined.

(** C6, the claim as stated fails for breaches: a breach reported twice,
    in two dicts equal field by field, is twice in the report, while the
    profile reported twice is there once. *)
Lemma breaches_are_not_deduplicated :
  let w := after twins_heap repeat_feed in
  ∃ r, get_aggregated_results (heap w) (agg w) = Ok r
    ∧ data_breaches (report_data r) = [Shared 2; Shared 6]
    ∧ heap w !! 2 = heap w !! 6
    ∧ key_of account_key (heap w) (Shared 2) = Ok "adobe:a@b.c"
    ∧ key_of account_key (heap w) (Shared 6) = Ok "adobe:a@b.c"
    ∧ data_social_profiles (report_data r) = [Shared 3].
Proof.
  intros w. eexists. split; [vm_compute; reflexivity |].
  repeat apply conj; vm_compute; reflexivity.
Qed.


(** *** What a feed adds up to *)

(** Two source indexes put together: the lists of a key one after the
    other. *)
Definition munion (s0 s2 : gmap string (list string))
    : gmap string (list string) :=
  union_with (λ l1 l2, Some (l1 ++ l2)) s0 s2.

(** [a1] holds what [a0] holds followed by what [a2] holds. *)
Definition merged (a0 a1 a2 : aggregator) : Prop :=
  emails a1 = emails a0 ∪ emails a2
  ∧ usernames a1 = usernames a0 ∪ usernames a2
  ∧ domains a1 = domains a0 ∪ domains a2
  ∧ subdomains a1 = subdomains a0 ∪ subdomains a2
  ∧ phone_numbers a1 = phone_numbers a0 ∪ phone_numbers a2
  ∧ urls a1 = urls a0 ∪ urls a2
  ∧ social_profiles a1 = social_profiles a0 ++ social_profiles a2
  ∧ accounts a1 = accounts a0 ++ accounts a2
  ∧ breaches a1 = breaches a0 ++ breaches a2
  ∧ sources a1 = munion (sources a0) (sources a2).

Definition combine (a0 a2 : aggregator) : aggregator :=
  Aggregator [] (emails a0 ∪ emails a2) (usernames a0 ∪ usernames a2)
    (domains a0 ∪ domains a2) (subdomains a0 ∪ subdomains a2)
    (phone_numbers a0 ∪ phone_numbers a2) (urls a0 ∪ urls a2)
    (social_profiles a0 ++ social_profiles a2) (breaches a0 ++ breaches a2)
    (accounts a0 ++ accounts a2) ∅ (munion (sources a0) (sources a2)).

Lemma munion_empty_r s : munion s ∅ = s.
Proof.
  apply map_eq. intros i. unfold munion.
  rewrite lookup_union_with, lookup_empty. by destruct (s !! i).
Qed.

Lemma munion_empty_l s : munion ∅ s = s.
Proof.
  apply map_eq. intros i. unfold munion.
  rewrite lookup_union_with, lookup_empty. by destruct (s !! i).
Qed.

Lemma munion_assoc s0 s1 s2 :
  munion (munion s0 s1) s2 = munion s0 (munion s1 s2).
Proof.
  apply map_eq. intros i. unfold munion. rewrite !lookup_union_with.
  destruct (s0 !! i), (s1 !! i), (s2 !! i); simpl; rewrite <- ?app_assoc; done.
Qed.

Lemma munion_append_source s0 s2 k n :
  append_source k n (munion s0 s2) = munion s0 (append_source k n s2).
Proof.
  apply map_eq. intros i. unfold append_source, munion, append.
  destruct (decide (k = i)) as [->|Hne].
  - rewrite lookup_insert_eq, !lookup_union_with, lookup_insert_eq.
    destruct (s0 !! i), (s2 !! i); simpl; rewrite <- ?app_assoc; done.
  - by rewrite lookup_insert_ne, !lookup_union_with, lookup_insert_ne by done.
Qed.

Lemma merged_init a : merged a a init.
Proof.
  unfold merged; simpl.
  rewrite !(right_id_L ∅ (∪)), !app_nil_r, munion_empty_r. by repeat split.
Qed.

Lemma merged_combine a0 a1 a2 d t :
  merged a0 a1 d → merged a1 a2 t → merged a0 a2 (combine d t).
Proof.
  intros (E1&E2&E3&E4&E5&E6&E7&E8&E9&E10) (F1&F2&F3&F4&F5&F6&F7&F8&F9&F10).
  unfold merged; simpl.
  rewrite F1, F2, F3, F4, F5, F6, F7, F8, F9, F10.
  rewrite E1, E2, E3, E4, E5, E6, E7, E8, E9, E10.
  rewrite !(assoc_L (∪)), !app_assoc, munion_assoc. by repeat split.
Qed.

Lemma add_union x (s0 s2 : gset string) : add x (s0 ∪ s2) = s0 ∪ add x s2.
Proof.
  unfold add. by rewrite !(assoc_L (∪)), (comm_L (∪) {[x]} s0).
Qed.

Lemma erase_lookup σ1 σ2 l :
  erase σ1 = erase σ2 → option_Forall2 same_fields (σ1 !! l) (σ2 !! l).
Proof.
  intros He. apply (f_equal (.!! l)) in He. unfold erase in He.
  rewrite !list_lookup_fmap in He.
  destruct (σ1 !! l) as [d1|], (σ2 !! l) as [d2|]; simplify_eq/=;
    constructor.
  intros k Hk. apply (f_equal (.!! k)) in He.
  by rewrite !lookup_delete_ne in He by done.
Qed.

Lemma erase_stamp σ l d v :
  σ !! l = Some d → erase (<[l := <["source" := v]> d]> σ) = erase σ.
Proof.
  intros Hl. unfold erase. rewrite list_fmap_insert, delete_insert_eq.
  apply list_insert_id. by rewrite list_lookup_fmap, Hl.
Qed.

Lemma add_result_sim_merged a0 n result :
  sim (λ σ1 σ2, erase σ1 = erase σ2) (merged a0) eq
    (add_result n result) (add_result n result).
Proof.
  apply sim_add_result.
  - intros σ1 σ2 l. apply erase_lookup.
  - intros σ1 σ2 l d1 d2 v He H1 H2. by rewrite !erase_stamp.
  - by intros a1 a2 f1 f2.
  - intros a1 a2 x (E1&E2&E3&E4&E5&E6&E7&E8&E9&E10); unfold merged; simpl.
    rewrite E1, add_union. by repeat split.
  - intros a1 a2 x (E1&E2&E3&E4&E5&E6&E7&E8&E9&E10); unfold merged; simpl.
    rewrite E2, add_union. by repeat split.
  - intros a1 a2 x (E1&E2&E3&E4&E5&E6&E7&E8&E9&E10); unfold merged; simpl.
    rewrite E3, add_union. by repeat split.
  - intros a1 a2 x (E1&E2&E3&E4&E5&E6&E7&E8&E9&E10); unfold merged; simpl.
    rewrite E4, add_union. by repeat split.
  - intros a1 a2 x (E1&E2&E3&E4&E5&E6&E7&E8&E9&E10); unfold merged; simpl.
    rewrite E5, add_union. by repeat split.
  - intros a1 a2 x (E1&E2&E3&E4&E5&E6&E7&E8&E9&E10); unfold merged; simpl.
    rewrite E6, add_union. by repeat split.
  - intros a1 a2 e (E1&E2&E3&E4&E5&E6&E7&E8&E9&E10); unfold merged, append; simpl.
    rewrite E7, <- app_assoc. by repeat split.
  - intros a1 a2 e (E1&E2&E3&E4&E5&E6&E7&E8&E9&E10); unfold merged, append; simpl.
    rewrite E8, <- app_assoc. by repeat split.
  - intros a1 a2 e (E1&E2&E3&E4&E5&E6&E7&E8&E9&E10); unfold merged, append; simpl.
    rewrite E9, <- app_assoc. by repeat split.
  - intros a1 a2 k n' (E1&E2&E3&E4&E5&E6&E7&E8&E9&E10); unfold merged; simpl.
    rewrite E10, munion_append_source. by repeat split.
Qed.

(** One pair of the feed, given alone to a new aggregator on the heap [σ0]. *)
Definition alone (σ0 : store) (x : string * value) : world * res unit :=
  add_result x.1 x.2 (World σ0 0 init).

Definition contribution (σ0 : store) (x : string * value) : aggregator :=
  agg (alone σ0 x).1.

Definition accepted (σ0 : store) (x : string * value) : Prop :=
  (alone σ0 x).2 = Ok tt.

Definition total (σ0 : store) (feed : list (string * value)) : aggregator :=
  foldr (λ x acc, combine (contribution σ0 x) acc) init feed.

Lemma add_result_merged σ0 x w :
  erase (heap w) = erase σ0 →
  erase (heap (add_result x.1 x.2 w).1) = erase σ0
  ∧ merged (agg w) (agg (add_result x.1 x.2 w).1) (contribution σ0 x)
  ∧ (add_result x.1 x.2 w).2 = (alone σ0 x).2.
Proof.
  intros He.
  destruct (add_result_sim_merged (agg w) x.1 x.2 w (World σ0 0 init))
    as [[HH HG] Hres]; [split; [done | apply merged_init] |].
  split; [by rewrite add_result_erase |]. split; [done |].
  unfold alone.
  destruct (add_result x.1 x.2 w).2 as [[]|],
           (add_result x.1 x.2 (World σ0 0 init)).2 as [[]|];
    simpl in Hres; by subst.
Qed.

Lemma add_results_merged σ0 feed : ∀ w,
  erase (heap w) = erase σ0 →
  erase (heap (add_results feed w).1) = erase σ0
  ∧ ((add_results feed w).2 = Ok tt ↔ Forall (accepted σ0) feed)
  ∧ ((add_results feed w).2 = Ok tt →
     merged (agg w) (agg (add_results feed w).1) (total σ0 feed)).
Proof.
  induction feed as [|x feed IH]; intros w He.
  - simpl. split; [done |]. split; [by split |]. intros _. apply merged_init.
  - unfold add_results in *. simpl. unfold bind.
    destruct (add_result_merged σ0 x w He) as (He1 & Hm1 & Hr1).
    destruct (add_result x.1 x.2 w) as [w1 [[]|e]] eqn:Hx; simpl in *.
    + destruct (IH w1 He1) as (He2 & Hok & Hm2).
      split; [done |]. split.
      * rewrite Hok. split; [intros; by constructor | by inversion 1].
      * intros Hr. eapply merged_combine; [done | by apply Hm2].
    + split; [done |]. split; [| done].
      split; [done |]. inversion 1 as [|?? Hacc]; subst.
      unfold accepted in Hacc. congruence.
Qed.


(** *** Feeds in another order *)

(** Two aggregators with the same sets, the same structured records up to
    their order, and source lists that hold the same names up to order. *)
Definition agg_equiv (a1 a2 : aggregator) : Prop :=
  emails a1 = emails a2 ∧ usernames a1 = usernames a2
  ∧ domains a1 = domains a2 ∧ subdomains a1 = subdomains a2
  ∧ phone_numbers a1 = phone_numbers a2 ∧ urls a1 = urls a2
  ∧ social_profiles a1 ≡ₚ social_profiles a2
  ∧ accounts a1 ≡ₚ accounts a2
  ∧ breaches a1 ≡ₚ breaches a2
  ∧ ∀ k, option_Forall2 Permutation (sources a1 !! k) (sources a2 !! k).

Lemma agg_equiv_refl a : agg_equiv a a.
Proof.
  repeat split; try done; intros k; by apply option_Forall2_refl.
Qed.

Lemma agg_equiv_sym a1 a2 : agg_equiv a1 a2 → agg_equiv a2 a1.
Proof.
  intros (E1&E2&E3&E4&E5&E6&E7&E8&E9&E10).
  repeat split; try done; intros k; by apply option_Forall2_sym.
Qed.

Lemma agg_equiv_trans a1 a2 a3 :
  agg_equiv a1 a2 → agg_equiv a2 a3 → agg_equiv a1 a3.
Proof.
  intros (E1&E2&E3&E4&E5&E6&E7&E8&E9&E10) (F1&F2&F3&F4&F5&F6&F7&F8&F9&F10).
  repeat split; try congruence; try (by etrans);
    intros k; eapply option_Forall2_trans; [apply _ | apply E10 | apply F10].
Qed.

Lemma combine_equiv d t1 t2 :
  agg_equiv t1 t2 → agg_equiv (combine d t1) (combine d t2).
Proof.
  intros (E1&E2&E3&E4&E5&E6&E7&E8&E9&E10). unfold agg_equiv; simpl.
  rewrite E1, E2, E3, E4, E5, E6, E7, E8, E9. repeat split; try done.
  intros k. unfold munion. rewrite !lookup_union_with.
  destruct (E10 k) as [l1 l2 Hl|], (sources d !! k); simpl;
    constructor; by rewrite ?Hl.
Qed.

Lemma combine_swap x y t :
  agg_equiv (combine x (combine y t)) (combine y (combine x t)).
Proof.
  unfold agg_equiv; simpl.
  rewrite !(assoc_L (∪)), (comm_L (∪) (emails x)),
    (comm_L (∪) (usernames x)), (comm_L (∪) (domains x)),
    (comm_L (∪) (subdomains x)), (comm_L (∪) (phone_numbers x)),
    (comm_L (∪) (urls x)).
  repeat split; try done; try apply Permutation_app_swap_app.
  intros k. unfold munion. rewrite !lookup_union_with.
  destruct (sources x !! k), (sources y !! k), (sources t !! k); simpl;
    constructor;
    first [ done | apply Permutation_app_swap_app | apply Permutation_app_comm ].
Qed.

Lemma total_Permutation σ0 feed1 feed2 :
  feed1 ≡ₚ feed2 → agg_equiv (total σ0 feed1) (total σ0 feed2).
Proof.
  induction 1 as [|x f1 f2 _ IH|x y f|f1 f2 f3 _ IH1 _ IH2]; simpl.
  - apply agg_equiv_refl.
  - by apply combine_equiv.
  - apply combine_swap.
  - by eapply agg_equiv_trans.
Qed.

Lemma merged_init_equiv a t : merged init a t → agg_equiv a t.
Proof.
  intros (E1&E2&E3&E4&E5&E6&E7&E8&E9&E10). simpl in *.
  rewrite (left_id_L ∅ (∪)) in E1, E2, E3, E4, E5, E6.
  rewrite munion_empty_l in E10.
  repeat split; try done; try (by rewrite ?E7, ?E8, ?E9).
  intros k. rewrite E10. by destruct (sources t !! k); constructor.
Qed.

(** The states two orders of one feed lead to, from new aggregators. *)
Lemma add_results_Permutation σ c1 c2 feed1 feed2 :
  feed1 ≡ₚ feed2 →
  (add_results feed1 (World σ c1 init)).2 = Ok tt →
  (add_results feed2 (World σ c2 init)).2 = Ok tt
  ∧ erase (heap (add_results feed1 (World σ c1 init)).1)
    = erase (heap (add_results feed2 (World σ c2 init)).1)
  ∧ agg_equiv (agg (add_results feed1 (World σ c1 init)).1)
      (agg (add_results feed2 (World σ c2 init)).1).
Proof.
  intros Hp Hok1.
  destruct (add_results_merged σ feed1 (World σ c1 init) eq_refl)
    as (He1 & Hiff1 & Hm1).
  destruct (add_results_merged σ feed2 (World σ c2 init) eq_refl)
    as (He2 & Hiff2 & Hm2).
  assert ((add_results feed2 (World σ c2 init)).2 = Ok tt) as Hok2.
  { apply Hiff2. rewrite <- Hp. by apply Hiff1. }
  split; [done |]. split; [congruence |].
  eapply agg_equiv_trans; [apply merged_init_equiv, Hm1, Hok1 |].
  eapply agg_equiv_trans; [apply total_Permutation, Hp |].
  apply agg_equiv_sym, merged_init_equiv, Hm2, Hok2.
Qed.


Lemma profile_key_same_fields d1 d2 :
  same_fields d1 d2 → profile_key d1 = profile_key d2.
Proof.
  intros Hd. unfold profile_key, get_or.
  by rewrite (Hd "platform"), (Hd "url"), (Hd "username").
Qed.

Lemma account_key_same_fields d1 d2 :
  same_fields d1 d2 → account_key d1 = account_key d2.
Proof.
  intros Hd. unfold account_key, get_or.
  by rewrite (Hd "platform"), (Hd "account"), (Hd "email").
Qed.

Lemma key_of_erase key σ1 σ2 e :
  (∀ d1 d2, same_fields d1 d2 → key d1 = key d2) →
  erase σ1 = erase σ2 → key_of key σ1 e = key_of key σ2 e.
Proof.
  intros Hkey He. unfold key_of. destruct e as [l|d]; simpl; [| done].
  destruct (erase_lookup σ1 σ2 l He) as [d1 d2 Hd|]; [by apply Hkey | done].
Qed.

Section DedupOrder.

Variable key : dict → res string.

Lemma first_exists σ items e k :
  e ∈ items → key_of key σ e = Ok k →
  ∃ i e0, first_with (key_of key σ) items i e0 k.
Proof.
  induction items as [|x items IH]; [by intros ?%elem_of_nil |].
  intros He Hk.
  assert (key_of key σ x = Ok k ∨ key_of key σ x ≠ Ok k) as [Hx|Hx].
  { destruct (key_of key σ x) as [k'|]; [| by right].
    destruct (decide (k' = k)) as [->|]; [by left | right; congruence]. }
  - exists 0, x. repeat split; [done |]. intros j e' Hj. lia.
  - apply elem_of_cons in He as [->|He]; [done |].
    destruct (IH He Hk) as (i & e0 & Hi & Hk0 & Hbefore).
    exists (S i), e0. repeat split; [done | done |].
    intros [|j] e' Hj He'; simpl in He'.
    + by injection He' as <-.
    + apply (Hbefore j e'); [lia | done].
Qed.

Lemma dedup_loop_keys σ items : ∀ seen unique out,
  dedup_loop key σ items seen unique = Ok out →
  Forall (λ e, ∃ k, key_of key σ e = Ok k) items.
Proof.
  induction items as [|item rest IH]; intros seen unique out; simpl;
    [by constructor |].
  destruct (key_of key σ item) as [k0|] eqn:Hk0; [| done].
  destruct (decide (k0 ∈ seen)); intros Hout;
    (constructor; [by exists k0 | by eapply IH]).
Qed.

Lemma dedup_loop_total σ items : ∀ seen unique,
  Forall (λ e, ∃ k, key_of key σ e = Ok k) items →
  ∃ out, dedup_loop key σ items seen unique = Ok out.
Proof.
  induction items as [|item rest IH]; intros seen unique Hall; simpl;
    [by eexists |].
  inversion Hall as [|?? [k0 Hk0] Hrest]; subst. rewrite Hk0.
  destruct (decide (k0 ∈ seen)); by apply IH.
Qed.

(** The keys of a deduplicated list are the keys of its input, once each. *)
Lemma dedup_loop_key_set σ items out k :
  dedup_loop key σ items ∅ [] = Ok out →
  Ok k ∈ key_of key σ <$> out ↔ Ok k ∈ key_of key σ <$> items.
Proof.
  intros Hout. pose proof (dedup_with_first_seen _ _ _ _ Hout)
    as (Hsub & Hnd & Hfst & Hall).
  rewrite !list_elem_of_fmap. split.
  - intros (e & Hk & He). exists e. split; [done |].
    by eapply elem_of_sublist.
  - intros (e & Hk & He).
    destruct (first_exists σ items e k He) as (i & e0 & Hf); [done |].
    exists e0. split; [by destruct Hf as (_ & -> & _) | by eapply Hfst].
Qed.

Lemma dedup_loop_Permutation σ1 σ2 items1 items2 out1 :
  (∀ e, key_of key σ1 e = key_of key σ2 e) →
  items1 ≡ₚ items2 →
  dedup_loop key σ1 items1 ∅ [] = Ok out1 →
  ∃ out2, dedup_loop key σ2 items2 ∅ [] = Ok out2
    ∧ key_of key σ1 <$> out1 ≡ₚ key_of key σ2 <$> out2.
Proof.
  intros Hkey Hp Hout1.
  pose proof (dedup_loop_keys _ _ _ _ _ Hout1) as Hall1.
  assert (Forall (λ e, ∃ k, key_of key σ2 e = Ok k) items2) as Hall2.
  { rewrite <- Hp. eapply Forall_impl; [exact Hall1 |].
    intros e [k Hk]. exists k. by rewrite <- Hkey. }
  destruct (dedup_loop_total σ2 items2 ∅ [] Hall2) as [out2 Hout2].
  exists out2. split; [done |].
  pose proof (dedup_with_first_seen _ _ _ _ Hout1) as (Hsub1 & Hnd1 & _).
  pose proof (dedup_with_first_seen _ _ _ _ Hout2) as (Hsub2 & Hnd2 & _).
  apply NoDup_Permutation; [done | done |].
  assert (key_of key σ1 <$> items1 ≡ₚ key_of key σ2 <$> items2) as Hkp.
  { rewrite Hp. by erewrite list_fmap_ext. }
  intros [k|err].
  - rewrite (dedup_loop_key_set σ1 items1 out1 k Hout1),
      (dedup_loop_key_set σ2 items2 out2 k Hout2). by rewrite Hkp.
  - split; intros (e & Hk & He)%list_elem_of_fmap; exfalso.
    + apply (elem_of_sublist _ _ _ He) in Hsub1.
      rewrite Forall_forall in Hall1. destruct (Hall1 e Hsub1); congruence.
    + apply (elem_of_sublist _ _ _ He) in Hsub2.
      rewrite Forall_forall in Hall2. destruct (Hall2 e Hsub2); congruence.
Qed.

End DedupOrder.

Lemma confidence_equiv a1 a2 :
  agg_equiv a1 a2 → _calculate_confidence a1 = _calculate_confidence a2.
Proof.
  intros (_&_&_&_&_&_&_&_&_&Hs). apply map_eq. intros k.
  unfold _calculate_confidence. rewrite !lookup_fmap.
  destruct (Hs k) as [l1 l2 Hl|]; simpl; [| done].
  unfold source_count. by rewrite Hl.
Qed.


(** C2, as the code has it. Two orders of one feed, each given to a new
    aggregator: if the first run and its report go through, so do the
    second; the two reports have the same sorted list for every scalar kind,
    the same counts and the same confidence for every key; their source
    lists hold the same names up to order, their breaches are the same
    records up to order, and their social profiles and accounts have the
    same deduplication keys. Which record stands for a key, and the order of
    the structured lists, are not part of what is preserved. *)
Theorem report_up_to_feed_order
    (σ : store) (c1 c2 : nat) (feed1 feed2 : list (string * value))
    (r1 : report) :
  feed1 ≡ₚ feed2 →
  let w1 := (add_results feed1 (World σ c1 init)).1 in
  let w2 := (add_results feed2 (World σ c2 init)).1 in
  (add_results feed1 (World σ c1 init)).2 = Ok tt →
  get_aggregated_results (heap w1) (agg w1) = Ok r1 →
  (add_results feed2 (World σ c2 init)).2 = Ok tt
  ∧ ∃ r2, get_aggregated_results (heap w2) (agg w2) = Ok r2
    ∧ data_emails (report_data r1) = data_emails (report_data r2)
    ∧ data_usernames (report_data r1) = data_usernames (report_data r2)
    ∧ data_domains (report_data r1) = data_domains (report_data r2)
    ∧ data_subdomains (report_data r1) = data_subdomains (report_data r2)
    ∧ data_phone_numbers (report_data r1) = data_phone_numbers (report_data r2)
    ∧ data_urls (report_data r1) = data_urls (report_data r2)
    ∧ report_summary r1 = report_summary r2
    ∧ report_confidence r1 = report_confidence r2
    ∧ (∀ k, option_Forall2 Permutation
              (report_sources r1 !! k) (report_sources r2 !! k))
    ∧ data_breaches (report_data r1) ≡ₚ data_breaches (report_data r2)
    ∧ key_of profile_key (heap w1) <$> data_social_profiles (report_data r1)
      ≡ₚ key_of profile_key (heap w2) <$> data_social_profiles (report_data r2)
    ∧ key_of account_key (heap w1) <$> data_accounts (report_data r1)
      ≡ₚ key_of account_key (heap w2) <$> data_accounts (report_data r2).
Proof.
  intros Hp w1 w2 Hok1 Hr1.
  destruct (add_results_Permutation σ c1 c2 feed1 feed2 Hp Hok1)
    as (Hok2 & He & Heq).
  fold w1 w2 in He, Heq. split; [done |].
  unfold get_aggregated_results, _deduplicate_profiles,
    _deduplicate_accounts in *.
  destruct (dedup_loop profile_key (heap w1) (social_profiles (agg w1)) ∅ [])
    as [ps1|] eqn:Hps1; [| done].
  destruct (dedup_loop account_key (heap w1) (accounts (agg w1)) ∅ [])
    as [as1|] eqn:Has1; [| done].
  injection Hr1 as <-.
  pose proof (confidence_equiv _ _ Heq) as Hconf.
  destruct Heq as (E1&E2&E3&E4&E5&E6&E7&E8&E9&E10).
  destruct (dedup_loop_Permutation profile_key (heap w1) (heap w2) _ _ ps1
              (λ e, key_of_erase _ _ _ e profile_key_same_fields He) E7 Hps1)
    as (ps2 & Hps2 & Hkp).
  destruct (dedup_loop_Permutation account_key (heap w1) (heap w2) _ _ as1
              (λ e, key_of_erase _ _ _ e account_key_same_fields He) E8 Has1)
    as (as2 & Has2 & Hka).
  rewrite Hps2, Has2. eexists. split; [reflexivity |]. simpl.
  rewrite E1, E2, E3, E4, E5, E6.
  rewrite (Permutation_length E7), (Permutation_length E8),
    (Permutation_length E9).
  by repeat split.
Qed.

Lemma report_up_to_feed_order_witness :
  let w1 := after twins_heap twins_feed in
  let w2 := after twins_heap twins_feed_swapped in
  ∃ r1 r2,
    get_aggregated_results (heap w1) (agg w1) = Ok r1
    ∧ get_aggregated_results (heap w2) (agg w2) = Ok r2
    ∧ report_summary r1 = report_summary r2
    ∧ data_breaches (report_data r1) ≡ₚ data_breaches (report_data r2)
    ∧ key_of profile_key (heap w1) <$> data_social_profiles (report_data r1)
      ≡ₚ key_of profile_key (heap w2) <$> data_social_profiles (report_data r2).
Proof.
  intros w1 w2.
  destruct (get_aggregated_results (heap w1) (agg w1)) as [r1|e] eqn:Hr1.
  - destruct (report_up_to_feed_order twins_heap 0 0 twins_feed
                twins_feed_swapped r1)
      as (_ & r2 & Hr2 & _ & _ & _ & _ & _ & _ & Hs & _ & _ & Hb & Hk & _).
    + apply perm_swap.
    + vm_compute. reflexivity.
    + exact Hr1.
    + exists r1, r2. repeat apply conj; [reflexivity | exact Hr2 | exact Hs
                                        | exact Hb | exact Hk].
  - vm_compute in Hr1. discriminate Hr1.
Defined.

(** C2, the claim as stated fails: in the two orders of the feed of the
    twins the report keeps another profile for the one key (the records
    differ in their user name) and lists the breaches in another order. *)
Lemma report_depends_on_feed_order :
  let w1 := after twins_heap twins_feed in
  let w2 := after twins_heap twins_feed_swapped in
  twins_feed ≡ₚ twins_feed_swapped
  ∧ ∃ r1 r2,
      get_aggregated_results (heap w1) (agg w1) = Ok r1
      ∧ get_aggregated_results (heap w2) (agg w2) = Ok r2
      ∧ data_social_profiles (report_data r1) = [Shared 3]
      ∧ data_social_profiles (report_data r2) = [Shared 7]
      ∧ (heap w1 !! 3) ≫= (.!! "username") = Some (VStr "ann")
      ∧ (heap w2 !! 7) ≫= (.!! "username") = Some (VStr "Ann")
      ∧ data_breaches (report_data r1) = [Shared 2; Shared 6]
      ∧ data_breaches (report_data r2) = [Shared 6; Shared 2]
      ∧ report_data r1 ≠ report_data r2.
Proof.
  intros w1 w2. split; [apply perm_swap |].
  eexists. eexists.
  split; [vm_compute; reflexivity |]. split; [vm_compute; reflexivity |].
  repeat apply conj; try (vm_compute; reflexivity).
  intros Heq. apply (f_equal data_breaches) in Heq.
  vm_compute in Heq. discriminate Heq.
Qed.

End AggregatorTheory.

(** * Properties of the workflow executor *)

Module OrchestratorTheory.
Import Orchestrator WorkflowExamples.

Section WithEnvironment.

Variable σ : store.
Variable _run_plugin : plugin_name → string → option value → outcome.

Local Abbreviation run_step := (run_step σ _run_plugin).
Local Abbreviation run_steps := (run_steps σ _run_plugin).
Local Abbreviation execute_workflow := (execute_workflow σ _run_plugin).

Lemma run_step_returned tgt name l d plugins w :
  _run_plugin (Some name) tgt None = Returned (VRef l) →
  σ !! l = Some d →
  run_step tgt (VStr name) plugins w
  = (World (clock w) (invoked w ++ [Invocation (Some name) tgt None]) (saved w),
     Ok (assign (Some name) (Shared l) plugins)).
Proof.
  intros Hrun Hl.
  unfold Orchestrator.run_step, bind, lift, invoke, Orchestrator.deref, ret;
    simpl.
  by rewrite Hrun, Hl.
Qed.

Lemma run_step_raised tgt name msg plugins w :
  _run_plugin (Some name) tgt None = Raised msg →
  run_step tgt (VStr name) plugins w
  = (World (clock w) (invoked w ++ [Invocation (Some name) tgt None]) (saved w),
     Ok (assign (Some name) (Fresh (failed_result msg)) plugins)).
Proof.
  intros Hrun.
  unfold Orchestrator.run_step, bind, lift, invoke, ret; simpl.
  by rewrite Hrun.
Qed.

(** What one findings dict adds to [summary['findings']]. *)
Lemma collect_lookup found acc kind :
  collect found acc !! kind
  = match found !! kind with
    | Some v => Some (default [] (acc !! kind) ++ as_list v)
    | None => acc !! kind
    end.
Proof.
  unfold collect. revert kind.
  apply (map_fold_weak_ind
    (λ r m, ∀ kind, r !! kind
       = match m !! kind with
         | Some v => Some (default [] (acc !! kind) ++ as_list v)
         | None => acc !! kind
         end)).
  - intros kind. by rewrite lookup_empty.
  - intros i x m r Hi IH kind. destruct (decide (i = kind)) as [->|Hne].
    + rewrite !lookup_insert_eq, IH, Hi. done.
    + rewrite !lookup_insert_ne by done. apply IH.
Qed.

Lemma unique_count_hashable xs :
  Forall (is_Some ∘ hash_key) xs → ∃ n, unique_count xs = Ok n.
Proof.
  intros [ks Hks]%mapM_is_Some. unfold unique_count. rewrite Hks. eauto.
Qed.

Lemma highlight_unique_hashable acc kind text hs :
  (∀ xs, acc !! kind = Some xs → Forall (is_Some ∘ hash_key) xs) →
  ∃ hs', highlight_unique acc kind text hs = Ok hs'.
Proof.
  intros Hh. unfold highlight_unique.
  destruct (acc !! kind) as [[|x xs]|] eqn:Hk; [by eexists | | by eexists].
  destruct (unique_count_hashable (x :: xs)) as [n ->]; [by apply Hh |].
  by eexists.
Qed.

Lemma make_highlights_hashable acc :
  (∀ kind xs, kind ∈ counted → acc !! kind = Some xs →
     Forall (is_Some ∘ hash_key) xs) →
  ∃ hs, make_highlights acc = Ok hs.
Proof.
  intros Hh. unfold make_highlights.
  destruct (highlight_unique_hashable acc "emails"
              " unique email(s) discovered" []) as [h1 ->].
  { intros xs. apply Hh. set_solver. }
  destruct (highlight_unique_hashable acc "usernames"
              " social media profile(s) found" h1) as [h2 ->].
  { intros xs. apply Hh. set_solver. }
  destruct (highlight_unique_hashable acc "subdomains"
              " subdomain(s) enumerated" h2) as [h3 ->].
  { intros xs. apply Hh. set_solver. }
  apply highlight_unique_hashable.
  intros xs. apply Hh. set_solver.
Qed.


Lemma succeeded_success d :
  d !! "status" = Some (VStr "success") → succeeded d = true.
Proof. intros Hs. unfold succeeded. by rewrite Hs. Qed.

Lemma succeeded_failed_result msg : succeeded (failed_result msg) = false.
Proof. unfold succeeded, failed_result. by rewrite lookup_insert_eq. Qed.

Lemma collect_elem found acc kind v x :
  found !! kind = Some v → x ∈ as_list v →
  ∃ xs, collect found acc !! kind = Some xs ∧ x ∈ xs.
Proof.
  intros Hk Hx. rewrite collect_lookup, Hk. eexists. split; [done |].
  apply elem_of_app. by right.
Qed.

Lemma collect_keeps found acc kind xs x :
  acc !! kind = Some xs → x ∈ xs →
  ∃ xs', collect found acc !! kind = Some xs' ∧ x ∈ xs'.
Proof.
  intros Hk Hx. rewrite collect_lookup, Hk.
  destruct (found !! kind); [| by eexists].
  eexists. split; [done |]. apply elem_of_app. by left.
Qed.

Lemma hashable_findings_spec found kind v :
  hashable_findings found = true → kind ∈ counted → found !! kind = Some v →
  Forall (is_Some ∘ hash_key) (as_list v).
Proof.
  intros Hf Hk Hv. unfold hashable_findings in Hf.
  rewrite forallb_forall in Hf. apply list_elem_of_In in Hk.
  specialize (Hf kind Hk). rewrite Hv in Hf.
  rewrite forallb_forall in Hf. apply Forall_forall. intros x Hx.
  apply list_elem_of_In in Hx. specialize (Hf x Hx). unfold hashable in Hf.
  simpl. by destruct (hash_key x).
Qed.

Lemma collect_hashable found acc :
  hashable_findings found = true →
  (∀ kind xs, kind ∈ counted → acc !! kind = Some xs →
     Forall (is_Some ∘ hash_key) xs) →
  ∀ kind xs, kind ∈ counted → collect found acc !! kind = Some xs →
    Forall (is_Some ∘ hash_key) xs.
Proof.
  intros Hf Hacc kind xs Hc. rewrite collect_lookup.
  destruct (found !! kind) as [v|] eqn:Hv; [| by apply Hacc].
  intros [= <-]. apply Forall_app.
  split; [| by eapply hashable_findings_spec].
  destruct (acc !! kind) as [ys|] eqn:Hys; [by eapply Hacc | constructor].
Qed.

Lemma assign_trio {V} (A B C : string) (va vb vc : V) :
  A ≠ B → A ≠ C → B ≠ C →
  assign (Some C) vc (assign (Some B) vb (assign (Some A) va []))
  = [(Some A, va); (Some B, vb); (Some C, vc)].
Proof.
  intros HAB HAC HBC. simpl.
  repeat (case_decide; [congruence | simpl]). reflexivity.
Qed.

(** The run of [execute_workflow] once the step loop and the summary are
    known. *)
Lemma execute_workflow_run wf d tgt steps w w1 plugins sm :
  σ !! wf = Some d →
  steps_of d = Ok steps →
  run_steps tgt steps [] (World (S (clock w)) (invoked w) (saved w))
  = (w1, Ok plugins) →
  _generate_summary σ plugins = Ok sm →
  let r := Results tgt (default (VStr "custom") (d !! "name")) (clock w)
             plugins sm (clock w1) in
  execute_workflow (VRef wf) tgt w
  = (World (S (S (clock w1))) (invoked w1)
       (saved w1 ++ [SavedFile (target_safe tgt) (S (clock w1)) r]),
     Ok r).
Proof.
  intros Hwf Hsteps Hrun Hsum r.
  unfold Orchestrator.execute_workflow, bind, now, lift, Orchestrator.deref.
  rewrite Hwf, Hsteps. cbn [clock invoked saved]. rewrite Hrun.
  cbn [clock invoked saved]. rewrite Hsum.
  unfold _save_results, bind, now, ret. reflexivity.
Qed.

Lemma run_steps_trio tgt A B C a c dA dC msg w :
  A ≠ B → A ≠ C → B ≠ C →
  _run_plugin (Some A) tgt None = Returned (VRef a) →
  _run_plugin (Some B) tgt None = Raised msg →
  _run_plugin (Some C) tgt None = Returned (VRef c) →
  σ !! a = Some dA → σ !! c = Some dC →
  run_steps tgt [VStr A; VStr B; VStr C] [] w
  = (World (clock w)
       (invoked w ++ [Invocation (Some A) tgt None;
                      Invocation (Some B) tgt None;
                      Invocation (Some C) tgt None])
       (saved w),
     Ok [(Some A, Shared a); (Some B, Fresh (failed_result msg));
         (Some C, Shared c)]).
Proof.
  intros HAB HAC HBC HrA HrB HrC Ha Hc.
  cbn [Orchestrator.run_steps]. unfold bind.
  erewrite run_step_returned by done.
  erewrite run_step_raised by done.
  erewrite run_step_returned by done.
  cbn [clock invoked saved ret]. rewrite assign_trio by done.
  by rewrite <- !app_assoc.
Qed.

Lemma tally_trio A B C a c fa fc dA dC fA fC msg :
  σ !! a = Some dA → dA !! "status" = Some (VStr "success") →
  dA !! "findings" = Some (VRef fa) → σ !! fa = Some fA →
  σ !! c = Some dC → dC !! "status" = Some (VStr "success") →
  dC !! "findings" = Some (VRef fc) → σ !! fc = Some fC →
  tally σ [(Some A, Shared a); (Some B, Fresh (failed_result msg));
           (Some C, Shared c)] 0 0 ∅
  = Ok (2, 1, collect fC (collect fA ∅)).
Proof.
  intros Ha HsA HfA Hfa Hc HsC HfC Hfc.
  cbn [tally resolve]. unfold Orchestrator.deref.
  rewrite Ha, (succeeded_success dA HsA), HfA, Hfa.
  rewrite succeeded_failed_result.
  by rewrite Hc, (succeeded_success dC HsC), HfC, Hfc.
Qed.



Lemma generate_summary_nil :
  _generate_summary σ [] = Ok (Summary 0 0 0 ∅ []).
Proof. reflexivity. Qed.


End WithEnvironment.





End OrchestratorTheory.

(** * More on [lower] and [strip] *)

Module PyStrMore.
Import PyStr PyStrTheory.

Lemma lower_char_idemp c : lower_char (lower_char c) = lower_char c.
Proof. by destruct c as [[] [] [] [] [] [] [] []]. Qed.

Lemma isspace_lower_char_eq c : isspace (lower_char c) = isspace c.
Proof. by destruct c as [[] [] [] [] [] [] [] []]. Qed.

Lemma lower_idemp s : lower (lower s) = lower s.
Proof.
  induction s as [|c s IH]; simpl; [done |].
  by rewrite lower_char_idemp, IH.
Qed.

Lemma lower_lstrip s : lower (lstrip s) = lstrip (lower s).
Proof.
  induction s as [|c s IH]; simpl; [done |].
  rewrite isspace_lower_char_eq. by destruct (isspace c).
Qed.

Lemma lower_rstrip s : lower (rstrip s) = rstrip (lower s).
Proof.
  induction s as [|c s IH]; simpl; [done |].
  rewrite <- IH, isspace_lower_char_eq.
  destruct (rstrip s); simpl; [by destruct (isspace c) | done].
Qed.

Lemma lower_strip s : lower (strip s) = strip (lower s).
Proof. unfold strip. by rewrite lower_rstrip, lower_lstrip. Qed.

Lemma rstrip_idemp s : rstrip (rstrip s) = rstrip s.
Proof.
  induction s as [|c s IH]; simpl; [done |].
  destruct (rstrip s) as [|c' r] eqn:Hr.
  - destruct (isspace c) eqn:Hc; simpl; [done | by rewrite Hc].
  - simpl in *. by rewrite IH.
Qed.

(** A string that does not start with white space. *)
Definition tight_left (s : string) : Prop :=
  match s with
  | EmptyString => True
  | String c _ => isspace c = false
  end.

Lemma lstrip_tight s : tight_left (lstrip s).
Proof.
  induction s as [|c s IH]; simpl; [done |].
  by destruct (isspace c) eqn:Hc.
Qed.

Lemma tight_left_lstrip s : tight_left s → lstrip s = s.
Proof. destruct s; simpl; [done | by intros ->]. Qed.

Lemma rstrip_tight s : tight_left s → tight_left (rstrip s).
Proof.
  destruct s as [|c s]; simpl; [done |]. intros Hc.
  destruct (rstrip s); simpl; [by rewrite Hc | done].
Qed.

Lemma strip_idemp s : strip (strip s) = strip s.
Proof.
  unfold strip.
  rewrite (tight_left_lstrip (rstrip (lstrip s)))
    by apply rstrip_tight, lstrip_tight.
  apply rstrip_idemp.
Qed.

Lemma strip_lower_fixed s :
  strip (strip (lower s)) = strip (lower s)
  ∧ lower (strip (lower s)) = strip (lower s).
Proof.
  split; [apply strip_idemp |]. by rewrite lower_strip, lower_idemp.
Qed.

(** What [strip] leaves has no white space at either end. *)
Lemma rstrip_last s c :
  last (list_ascii_of_string (rstrip s)) = Some c → isspace c = false.
Proof.
  induction s as [|x s IH]; simpl; [done |].
  destruct (rstrip s) as [|y r] eqn:Hr.
  - destruct (isspace x) eqn:Hx; simpl; [done | by intros [= <-]].
  - simpl in *. destruct (list_ascii_of_string r); simpl in *; apply IH.
Qed.

End PyStrMore.

(** * Invariants of the aggregator *)

Module AggregatorInvariants.
Import Aggregator Examples AggregatorTheory Notions.

(** *** Invariants of the aggregator *)

Section AggregatorInvariant.

(** [I] is a property of the aggregator that the writes of [extract]
    keep. *)
Variable I : aggregator → Prop.
Variable plugin_name : string.

Hypothesis I_scalar : ∀ k a s, I a → I (scalar_step k plugin_name a s).
Hypothesis I_social_profiles : ∀ a e,
  I a → I (with_social_profiles (append e) a).
Hypothesis I_accounts : ∀ a e, I a → I (with_accounts (append e) a).
Hypothesis I_breaches : ∀ a e, I a → I (with_breaches (append e) a).

Definition keeps {A} (m : M world A) : Prop :=
  ∀ w, I (agg w) → I (agg (m w).1).

Lemma keeps_ret {A} (a : A) : keeps (ret a).
Proof. by intros w Hw. Qed.

Lemma keeps_raise {A} e : keeps (raise e : M world A).
Proof. by intros w Hw. Qed.

Lemma keeps_bind {A B} (m : M world A) (k : A → M world B) :
  keeps m → (∀ a, keeps (k a)) → keeps (bind m k).
Proof.
  intros Hm Hk w Hw. unfold bind. specialize (Hm w Hw).
  destruct (m w) as [w' [a|e]]; simpl in *; [by apply Hk | done].
Qed.

Lemma keeps_for_each {A} (xs : list A) body :
  (∀ x, keeps (body x)) → keeps (for_each xs body).
Proof.
  intros Hb. induction xs as [|x xs IH]; simpl.
  - apply keeps_ret.
  - apply keeps_bind; [apply Hb | by intros _].
Qed.

Lemma keeps_deref l : keeps (deref l).
Proof. intros w Hw. unfold deref. by destruct (heap w !! l). Qed.

Lemma keeps_setitem l key v : keeps (setitem l key v).
Proof.
  intros w Hw. unfold setitem, bind, deref. by destruct (heap w !! l).
Qed.

Lemma keeps_lookup_kind findings key : keeps (lookup_kind findings key).
Proof.
  destruct findings as [[]|]; simpl; repeat case_match;
    first [ apply keeps_raise | apply keeps_ret
          | apply keeps_bind;
            [apply keeps_deref | intros; apply keeps_ret] ].
Qed.

Lemma keeps_for_kind findings key body :
  (∀ x, keeps (body x)) → keeps (for_kind findings key body).
Proof.
  intros Hb. apply keeps_bind; [apply keeps_lookup_kind |].
  intros [x|]; [by apply keeps_for_each | apply keeps_ret].
Qed.

Lemma keeps_kind_body k x : keeps (kind_body k plugin_name x).
Proof.
  intros w Hw. destruct x; try by destruct k.
  rewrite kind_body_str. simpl. by apply I_scalar.
Qed.

Lemma keeps_add_profile x : keeps (add_profile plugin_name x).
Proof.
  destruct x; simpl; try apply keeps_ret.
  apply keeps_bind; [apply keeps_setitem | intros _].
  intros w Hw. by apply I_social_profiles.
Qed.

Lemma keeps_add_account x : keeps (add_account plugin_name x).
Proof.
  destruct x; simpl; try apply keeps_ret.
  - intros w Hw. by apply I_accounts.
  - apply keeps_bind; [apply keeps_setitem | intros _].
    intros w Hw. by apply I_accounts.
Qed.

Lemma keeps_add_breach x : keeps (add_breach plugin_name x).
Proof.
  destruct x; simpl; try apply keeps_ret.
  apply keeps_bind; [apply keeps_setitem | intros _].
  intros w Hw. by apply I_breaches.
Qed.

Lemma keeps_extract findings : keeps (extract plugin_name findings).
Proof.
  unfold extract.
  apply keeps_bind;
    [apply keeps_for_kind, (keeps_kind_body Emails) | intros _].
  apply keeps_bind;
    [apply keeps_for_kind, (keeps_kind_body Usernames) | intros _].
  apply keeps_bind;
    [apply keeps_for_kind, (keeps_kind_body Domains) | intros _].
  apply keeps_bind;
    [apply keeps_for_kind, (keeps_kind_body Subdomains) | intros _].
  apply keeps_bind;
    [apply keeps_for_kind, (keeps_kind_body PhoneNumbers) | intros _].
  apply keeps_bind;
    [apply keeps_for_kind, (keeps_kind_body Urls) | intros _].
  apply keeps_bind; [apply keeps_for_kind, keeps_add_profile | intros _].
  apply keeps_bind; [apply keeps_for_kind, keeps_add_account | intros _].
  apply keeps_for_kind, keeps_add_breach.
Qed.

Lemma keeps_get_findings result : keeps (get_findings result).
Proof.
  destruct result; try apply keeps_raise.
  apply keeps_bind; [apply keeps_deref | intros; apply keeps_ret].
Qed.

Hypothesis I_raw_results : ∀ a f, I a → I (with_raw_results f a).

Lemma keeps_add_result result : keeps (add_result plugin_name result).
Proof.
  unfold add_result.
  apply keeps_bind; [by intros w Hw | intros ts].
  apply keeps_bind; [intros w Hw; by apply I_raw_results | intros _].
  apply keeps_bind; [apply keeps_get_findings | intros findings].
  apply keeps_extract.
Qed.

End AggregatorInvariant.

Lemma keeps_add_results (I : aggregator → Prop) feed :
  (∀ n k a s, I a → I (scalar_step k n a s)) →
  (∀ a e, I a → I (with_social_profiles (append e) a)) →
  (∀ a e, I a → I (with_accounts (append e) a)) →
  (∀ a e, I a → I (with_breaches (append e) a)) →
  (∀ a f, I a → I (with_raw_results f a)) →
  ∀ w, I (agg w) → I (agg (add_results feed w).1).
Proof.
  intros H1 H2 H3 H4 H5. unfold add_results.
  induction feed as [|[n r] feed IH]; intros w Hw; simpl; [done |].
  unfold bind.
  pose proof (keeps_add_result I n (H1 n) H2 H3 H4 H5 r w Hw) as Hx.
  destruct (add_result n r w) as [w' [[]|e]]; simpl in *; [by apply IH | done].
Qed.

Lemma sources_scalar_step k n a s :
  sources (scalar_step k n a s)
  = match source_key k s with
    | Some key => append_source key n (sources a)
    | None => sources a
    end.
Proof. by destruct k. Qed.

Lemma kind_set_scalar_step_other k k' n a s :
  k ≠ k' → kind_set k (scalar_step k' n a s) = kind_set k a.
Proof. by destruct k, k'. Qed.

(** X1. Whatever is fed to a new aggregator, and whether or not a call raises
    on the way, every key of the source index has at least one collector
    name, so that every confidence is computed from one name or more. *)
Theorem sources_never_empty
    (σ : store) (c : nat) (feed : list (string * value))
    (key : string) (l : list string) :
  sources (agg (add_results feed (World σ c init)).1) !! key = Some l →
  l ≠ [] ∧ 1 ≤ source_count l.
Proof.
  intros Hl.
  assert (sources_inhabited (agg (add_results feed (World σ c init)).1)) as Hi.
  { apply (keeps_add_results sources_inhabited).
    - intros n k a s Ha key' l'. rewrite sources_scalar_step.
      destruct (source_key k s) as [sk|]; [| apply Ha].
      unfold append_source, append. destruct (decide (sk = key')) as [->|Hne].
      + rewrite lookup_insert_eq. intros [= <-]. by destruct (default [] _).
      + rewrite lookup_insert_ne by done. apply Ha.
    - intros a e Ha. exact Ha.
    - intros a e Ha. exact Ha.
    - intros a e Ha. exact Ha.
    - intros a f Ha. exact Ha.
    - intros key' l'. simpl. by rewrite lookup_empty. }
  split; [by eapply Hi |].
  rewrite source_count_distinct.
  destruct l as [|x l]; [by destruct (Hi key [] Hl) |].
  assert (x ∈ remove_dups (x :: l)) as Hx
    by (apply elem_of_remove_dups, elem_of_cons; by left).
  destruct (remove_dups (x :: l)); [by apply elem_of_nil in Hx | simpl; lia].
Qed.

Lemma sources_never_empty_witness :
  ["socialCollector"] ≠ [] ∧ 1 ≤ source_count ["socialCollector"].
Proof.
  apply (sources_never_empty scenario_heap 0 scenario_feed
           "email:user@example.com" ["socialCollector"]).
  vm_compute. reflexivity.
Defined.

Lemma add_result_raw_results n result w :
  raw_results (agg (add_result n result w).1)
  = raw_results (agg w) ++ [RawResult n (clock w) result].
Proof.
  unfold add_result. rewrite bind_now, bind_update.
  set (w1 := World _ _ _).
  apply (keeps_bind
           (λ a, raw_results a = raw_results (agg w) ++ [RawResult n (clock w) result])
           (get_findings result) (extract n)).
  - apply keeps_get_findings.
  - intros findings. apply keeps_extract.
    + intros k a s. by destruct k.
    + done.
    + done.
    + done.
  - done.
Qed.

(** X2. [add_result] records the call in [raw_results] first: whatever the
    result is and whether or not the call raises, [raw_results] afterwards is
    what it was with one entry more, for this collector and this result,
    stamped with the time of the call. *)
Theorem add_result_records_raw (n : string) (result : value) (w : world) :
  raw_results (agg (add_result n result w).1)
  = raw_results (agg w) ++ [RawResult n (clock w) result]
  ∧ length (raw_results (agg (add_result n result w).1))
    = S (length (raw_results (agg w))).
Proof.
  rewrite add_result_raw_results. split; [done |].
  rewrite length_app. cbn. lia.
Qed.

(** X3. A result without ['findings'], such as the entry the executor writes
    for a collector that raised, adds nothing: the call returns, and only
    [raw_results] and the clock have changed. *)
Theorem add_result_without_findings
    (n : string) (r : loc) (d : dict) (w : world) :
  heap w !! r = Some d →
  d !! "findings" = None →
  add_result n (VRef r) w
  = (World (heap w) (S (clock w))
       (with_raw_results (append (RawResult n (clock w) (VRef r))) (agg w)),
     Ok tt).
Proof.
  intros Hr Hf. unfold add_result. rewrite bind_now, bind_update.
  erewrite bind_get_findings by exact Hr. by rewrite Hf.
Qed.

Lemma failed_result_without_findings msg :
  Orchestrator.failed_result msg !! "findings" = None.
Proof.
  unfold Orchestrator.failed_result.
  by rewrite !lookup_insert_ne, lookup_empty.
Qed.

Lemma add_result_without_findings_witness :
  (add_result "hibp" (VRef 0)
     (World [Orchestrator.failed_result "API key not configured"] 0 init)).2
  = Ok tt.
Proof.
  rewrite (add_result_without_findings "hibp" 0
             (Orchestrator.failed_result "API key not configured"));
    [reflexivity | reflexivity | apply failed_result_without_findings].
Defined.

Lemma kind_set_with_social_profiles k f a :
  kind_set k (with_social_profiles f a) = kind_set k a.
Proof. by destruct k. Qed.

Lemma kind_set_with_accounts k f a :
  kind_set k (with_accounts f a) = kind_set k a.
Proof. by destruct k. Qed.

Lemma kind_set_with_breaches k f a :
  kind_set k (with_breaches f a) = kind_set k a.
Proof. by destruct k. Qed.

Lemma normalize_fixed k s :
  PyStr.strip (normalize k s) = normalize k s
  ∧ (case_folded k = true → PyStr.lower (normalize k s) = normalize k s).
Proof.
  unfold normalize. destruct (case_folded k).
  - destruct (PyStrMore.strip_lower_fixed s). by split.
  - split; [apply PyStrMore.strip_idemp | done].
Qed.

(** X4. Whatever is fed to a new aggregator, every member of a scalar set has no
    white space at its ends ([strip] leaves it as it is), and every email,
    domain and subdomain has no capital letter ([lower] leaves it as it
    is). *)
Theorem members_are_normalized
    (σ : store) (c : nat) (feed : list (string * value))
    (k : scalar_kind) (x : string) :
  x ∈ kind_set k (agg (add_results feed (World σ c init)).1) →
  PyStr.strip x = x ∧ (case_folded k = true → PyStr.lower x = x).
Proof.
  revert k x. change (members_normalized (agg (add_results feed (World σ c init)).1)).
  apply (keeps_add_results members_normalized).
  - intros n k' a s Ha k x.
    assert (k = k' ∨ k ≠ k') as [<-|Hne]
      by (destruct k, k'; first [by left | by right]).
    + rewrite kind_set_scalar_step. unfold add.
      intros [->%elem_of_singleton|Hx]%elem_of_union;
        [apply normalize_fixed | by apply Ha].
    + rewrite kind_set_scalar_step_other by done. apply Ha.
  - intros a e Ha k x. rewrite kind_set_with_social_profiles. apply Ha.
  - intros a e Ha k x. rewrite kind_set_with_accounts. apply Ha.
  - intros a e Ha k x. rewrite kind_set_with_breaches. apply Ha.
  - intros a f Ha k x. rewrite kind_set_with_raw_results. apply Ha.
  - intros k x. by destruct k.
Qed.

Lemma members_are_normalized_witness :
  PyStr.strip "user@example.com" = "user@example.com"
  ∧ (case_folded Emails = true
     → PyStr.lower "user@example.com" = "user@example.com").
Proof.
  apply (members_are_normalized scenario_heap 0 scenario_feed Emails).
  vm_compute. reflexivity.
Defined.

(** *** Growth *)

(** X5. A call of [add_result] only adds: whether it returns or raises, every
    scalar set contains what it contained, every structured list and
    [raw_results] start with what they were, and the list of every key of the
    source index starts with what it was. *)
Theorem add_result_only_grows (n : string) (result : value) (w : world) :
  let a := agg w in
  let a' := agg (add_result n result w).1 in
  (∀ k, kind_set k a ⊆ kind_set k a')
  ∧ social_profiles a `prefix_of` social_profiles a'
  ∧ accounts a `prefix_of` accounts a'
  ∧ breaches a `prefix_of` breaches a'
  ∧ raw_results a `prefix_of` raw_results a'
  ∧ (∀ key l, sources a !! key = Some l →
       ∃ l', sources a' !! key = Some (l ++ l')).
Proof.
  intros a a'.
  destruct (add_result_merged (heap w) (n, result) w eq_refl)
    as (_ & (E1&E2&E3&E4&E5&E6&E7&E8&E9&E10) & _).
  simpl in *. fold a a' in E1, E2, E3, E4, E5, E6, E7, E8, E9, E10.
  repeat split.
  - intros k. destruct k; simpl; rewrite ?E1, ?E2, ?E3, ?E4, ?E5, ?E6;
      apply union_subseteq_l.
  - rewrite E7. by apply prefix_app_r.
  - rewrite E8. by apply prefix_app_r.
  - rewrite E9. by apply prefix_app_r.
  - unfold a'. rewrite add_result_raw_results. by apply prefix_app_r.
  - intros key l Hl. rewrite E10. unfold munion.
    rewrite lookup_union_with, Hl.
    destruct (sources (contribution _ _) !! key) as [l'|]; simpl;
      [eexists; reflexivity |].
    exists []. by rewrite app_nil_r.
Qed.

(** *** The counts and the lists of the report *)

Lemma length_sorted s : length (sorted s) = size s.
Proof.
  unfold sorted. by rewrite (Permutation_length (merge_sort_Permutation _ _)).
Qed.

Lemma elem_of_sorted s x : x ∈ sorted s ↔ x ∈ s.
Proof.
  unfold sorted. by rewrite (merge_sort_Permutation _ _), elem_of_elements.
Qed.

Lemma NoDup_sorted s : NoDup (sorted s).
Proof.
  unfold sorted. rewrite (merge_sort_Permutation _ _). apply NoDup_elements.
Qed.

Lemma StronglySorted_sorted s : StronglySorted String.le (sorted s).
Proof. apply (StronglySorted_merge_sort _). Qed.



(** X7. The list of a scalar kind in [data] has exactly the members of the set
    of that kind, each once, in ascending order of their code points. *)
Theorem report_scalars_sorted
    (σ : store) (a : aggregator) (r : report) (k : scalar_kind) :
  get_aggregated_results σ a = Ok r →
  StronglySorted String.le (data_of k (report_data r))
  ∧ NoDup (data_of k (report_data r))
  ∧ ∀ x, x ∈ data_of k (report_data r) ↔ x ∈ kind_set k a.
Proof.
  unfold get_aggregated_results.
  destruct (_deduplicate_profiles σ (social_profiles a)) as [ps|]; [| done].
  destruct (_deduplicate_accounts σ (accounts a)) as [acs|]; [| done].
  intros [= <-].
  destruct k; simpl;
    (split; [apply StronglySorted_sorted |
     split; [apply NoDup_sorted | intros x; apply elem_of_sorted]]).
Qed.

Lemma report_scalars_sorted_witness :
  let w := after scenario_heap scenario_feed in
  ∃ r, get_aggregated_results (heap w) (agg w) = Ok r
    ∧ NoDup (data_of Emails (report_data r)).
Proof.
  intros w.
  destruct (get_aggregated_results (heap w) (agg w)) as [r|e] eqn:Hr.
  - exists r. split; [reflexivity |].
    apply (report_scalars_sorted (heap w) (agg w) r Emails Hr).
  - vm_compute in Hr. discriminate Hr.
Defined.

(** *** A value that is no string *)

Lemma for_each_app {S A} (xs ys : list A) (body : A → M S unit) (s : S) :
  for_each (xs ++ ys) body s = bind (for_each xs body) (λ _, for_each ys body) s.
Proof.
  revert s. induction xs as [|x xs IH]; intros s; simpl.
  - unfold bind, ret. by destruct (for_each ys body s).
  - unfold bind in *. destruct (body x s) as [s' [[]|e]]; [apply IH | done].
Qed.

Lemma for_each_strings k n ss w :
  for_each (VStr <$> ss) (kind_body k n) w
  = (World (heap w) (clock w) (foldl (scalar_step k n) (agg w) ss), Ok tt).
Proof.
  revert w. induction ss as [|s ss IH]; intros w; simpl.
  - by destruct w.
  - unfold bind. rewrite kind_body_str. by rewrite IH.
Qed.

Lemma kind_set_foldl_scalar_step k n ss a :
  kind_set k (foldl (scalar_step k n) a ss)
  = list_to_set (normalize k <$> ss) ∪ kind_set k a.
Proof.
  revert a. induction ss as [|s ss IH]; intros a; simpl.
  - by rewrite (left_id_L ∅ (∪)).
  - rewrite IH, kind_set_scalar_step. unfold add.
    rewrite !(assoc_L (∪)). f_equal. apply (comm_L (∪)).
Qed.

Lemma emails_frame_foldl n ss a :
  let a' := foldl (scalar_step Emails n) a ss in
  usernames a' = usernames a ∧ domains a' = domains a
  ∧ subdomains a' = subdomains a ∧ phone_numbers a' = phone_numbers a
  ∧ urls a' = urls a ∧ social_profiles a' = social_profiles a
  ∧ accounts a' = accounts a ∧ breaches a' = breaches a.
Proof.
  revert a. induction ss as [|s ss IH]; intros a; simpl; [by repeat split |].
  destruct (IH (scalar_step Emails n a s)) as (E1&E2&E3&E4&E5&E6&E7&E8).
  simpl in *. by repeat split.
Qed.

(** X8. A list of emails with a value that is no string in it: [add_result]
    raises [AttributeError] at that value. The emails before it have been
    added; the values after it, and all the other kinds of the findings,
    have not been looked at. *)
Theorem add_result_stops_at_bad_email
    (n : string) (r f : loc) (rd fd : dict)
    (ss : list string) (v : value) (rest : list value) (w : world) :
  heap w !! r = Some rd →
  rd !! "findings" = Some (VRef f) →
  heap w !! f = Some fd →
  fd !! "emails" = Some (VList ((VStr <$> ss) ++ v :: rest)) →
  (∀ s, v ≠ VStr s) →
  let w' := (add_result n (VRef r) w).1 in
  (add_result n (VRef r) w).2 = Raise AttributeError
  ∧ heap w' = heap w
  ∧ emails (agg w') = list_to_set (normalize Emails <$> ss) ∪ emails (agg w)
  ∧ usernames (agg w') = usernames (agg w)
  ∧ domains (agg w') = domains (agg w)
  ∧ subdomains (agg w') = subdomains (agg w)
  ∧ phone_numbers (agg w') = phone_numbers (agg w)
  ∧ urls (agg w') = urls (agg w)
  ∧ social_profiles (agg w') = social_profiles (agg w)
  ∧ accounts (agg w') = accounts (agg w)
  ∧ breaches (agg w') = breaches (agg w).
Proof.
  intros Hr Hfind Hf He Hv w'. subst w'.
  set (a0 := with_raw_results (append (RawResult n (clock w) (VRef r))) (agg w)).
  assert (add_result n (VRef r) w
          = (World (heap w) (S (clock w)) (foldl (scalar_step Emails n) a0 ss),
             Raise AttributeError)) as ->.
  { unfold add_result. rewrite bind_now, bind_update.
    erewrite bind_get_findings by exact Hr. rewrite Hfind. unfold extract.
    erewrite bind_for_kind_present; [| exact Hf | exact He].
    cbn [as_list]. unfold bind. rewrite for_each_app. unfold bind.
    rewrite (for_each_strings Emails n). cbn [for_each]. unfold bind.
    assert (add_email n v = raise AttributeError) as ->; [| done].
    destruct v; try done. by destruct (Hv s). }
  cbn [fst snd heap agg].
  pose proof (kind_set_foldl_scalar_step Emails n ss a0) as Hem.
  destruct (emails_frame_foldl n ss a0) as (E1&E2&E3&E4&E5&E6&E7&E8).
  cbn [kind_set] in Hem. rewrite Hem, E1, E2, E3, E4, E5, E6, E7, E8.
  by repeat split.
Qed.

Lemma add_result_stops_at_bad_email_witness :
  let σ : store :=
    [ {[ "findings" := VRef 1 ]};
      {[ "emails" := VList ((VStr <$> [" A@b.c"]) ++ VNone :: [VStr "d@e.f"]);
         "usernames" := VList [VStr "ann"] ]} ] in
  let w' := (add_result "holehe" (VRef 0) (World σ 0 init)).1 in
  (add_result "holehe" (VRef 0) (World σ 0 init)).2 = Raise AttributeError
  ∧ emails (agg w') = list_to_set (normalize Emails <$> [" A@b.c"]) ∪ ∅
  ∧ usernames (agg w') = ∅.
Proof.
  intros σ w'.
  destruct (add_result_stops_at_bad_email "holehe" 0 1
              {[ "findings" := VRef 1 ]}
              {[ "emails" := VList ((VStr <$> [" A@b.c"]) ++ VNone :: [VStr "d@e.f"]);
                 "usernames" := VList [VStr "ann"] ]}
              [" A@b.c"] VNone [VStr "d@e.f"] (World σ 0 init))
    as (Hres & _ & Hem & Hus & _);
    [reflexivity | vm_compute; reflexivity | reflexivity
     | vm_compute; reflexivity | discriminate |].
  split; [exact Hres |]. split; [exact Hem | exact Hus].
Defined.

End AggregatorInvariants.

(** * Properties of the CSV export *)

Module CsvExportTheory.
Import Aggregator Examples AggregatorTheory Notions AggregatorInvariants CsvExport.

Lemma write_dicts_app fieldnames σ items : ∀ written,
  Forall (fits fieldnames σ) items →
  write_dicts fieldnames σ items written
  = Exported (written ++ ((λ e, dict_row fieldnames (default ∅ (resolve σ e)))
                            <$> items)).
Proof.
  induction items as [|item rest IH]; intros written Hall; simpl.
  - by rewrite app_nil_r.
  - inversion Hall as [|?? (d & Hd & Hsub) Hrest]; subst.
    rewrite Hd, decide_True by done. rewrite IH by done.
    by rewrite <- app_assoc.
Qed.

Lemma write_dicts_stop fieldnames σ good bad d rest written :
  Forall (fits fieldnames σ) good →
  resolve σ bad = Some d → ¬ (dom d ⊆ list_to_set fieldnames) →
  write_dicts fieldnames σ (good ++ bad :: rest) written
  = Interrupted
      (written
       ++ ((λ e, dict_row fieldnames (default ∅ (resolve σ e))) <$> good))
      ValueError.
Proof.
  revert written. induction good as [|item good IH]; intros written Hall Hb Hd;
    simpl.
  - by rewrite Hb, decide_False, app_nil_r by done.
  - inversion Hall as [|?? (d' & Hd' & Hsub) Hrest]; subst.
    rewrite Hd', decide_True by done. rewrite IH by done.
    by rewrite <- app_assoc.
Qed.

(** X9. The export of the emails: the header, then one row for each email of
    the report, in its order. The row of an email gives the names filed
    under ["email:"] and the email as it is in the report, or ["unknown"]
    when nothing is filed under that key, and its confidence, which is 50, 75
    or 100, and 50 when nothing is filed. *)
Theorem export_emails_rows
    (keys : dict → list string) (σ : store) (a : aggregator) (r : report) :
  get_aggregated_results σ a = Ok r →
  ∃ rows,
    export_csv keys σ a "emails" = Exported (email_header :: rows)
    ∧ length rows = total_emails (report_summary r)
    ∧ Forall2
        (λ email row,
           ∃ names conf,
             row = [VStr email; VStr names; VInt conf]
             ∧ (conf = 50%Z ∨ conf = 75%Z ∨ conf = 100%Z)
             ∧ (sources a !! ("email:" +:+ email) = None →
                names = "unknown" ∧ conf = 50%Z)
             ∧ ∀ l, sources a !! ("email:" +:+ email) = Some l →
                 names = join ", " l ∧ conf = score (source_count l))
        (data_emails (report_data r)) rows.
Proof.
  intros Hr. unfold export_csv. rewrite Hr. simpl. eexists.
  split; [reflexivity |].
  assert (total_emails (report_summary r)
          = length (data_emails (report_data r))) as Hlen.
  { unfold get_aggregated_results in Hr. repeat case_match; try done.
    injection Hr as <-. cbn. by rewrite length_sorted. }
  split; [by rewrite length_fmap |].
  apply Forall2_fmap_r, Forall_Forall2_diag, Forall_forall. intros email _.
  unfold email_row. eexists _, _. split; [reflexivity |].
  assert (report_confidence r = _calculate_confidence a) as ->.
  { unfold get_aggregated_results in Hr. repeat case_match; try done.
    by injection Hr as <-. }
  unfold _calculate_confidence. rewrite lookup_fmap.
  destruct (sources a !! ("email:" +:+ email)) as [l|]; simpl.
  - split; [apply score_values |]. split; [done |]. by intros ? [= <-].
  - split; [by left |]. by split.
Qed.

Lemma export_emails_rows_witness :
  let w := after scenario_heap scenario_feed in
  ∃ rows,
    export_csv (λ d, elements (dom d)) (heap w) (agg w) "emails"
    = Exported (email_header :: rows)
    ∧ length rows = 1.
Proof.
  intros w.
  destruct (get_aggregated_results (heap w) (agg w)) as [r|e] eqn:Hr.
  - destruct (export_emails_rows (λ d, elements (dom d)) (heap w) (agg w) r Hr)
      as (rows & Hrows & Hlen & _).
    exists rows. split; [exact Hrows |]. rewrite Hlen.
    vm_compute in Hr. injection Hr as <-. reflexivity.
  - vm_compute in Hr. discriminate Hr.
Defined.

(** X10. An email that its only collector spelled otherwise than the aggregator
    normalises it is exported without its collector: the row of the
    normalised email says ["unknown"], with confidence 50, since the source
    index files the collector under the spelling it used. *)
Theorem export_forgets_respelled_email
    (keys : dict → list string) (n s : string) :
  normalize Emails s ≠ s →
  let w := (add_result n (VRef 0) (World (lone_email_heap s) 0 init)).1 in
  sources (agg w) !! ("email:" +:+ s) = Some [n]
  ∧ export_csv keys (heap w) (agg w) "emails"
    = Exported [email_header;
                [VStr (normalize Emails s); VStr "unknown"; VInt 50]].
Proof.
  intros Hs w. subst w.
  rewrite (add_result_single_value Emails n 0 1 (VStr s) s) by done.
  cbn [fst heap agg clock]. split.
  - simpl. unfold append_source. by rewrite lookup_insert_eq.
  - unfold export_csv, get_aggregated_results, _deduplicate_profiles,
      _deduplicate_accounts. cbn.
    unfold add, sorted.
    rewrite !(right_id_L ∅ (∪)), elements_singleton. cbn.
    unfold email_row, _calculate_confidence. rewrite lookup_fmap. cbn.
    unfold append_source.
    rewrite lookup_insert_ne, lookup_empty; [done |].
    intros Heq. apply (inj (String.append "email:")) in Heq. by symmetry in Heq.
Qed.

Lemma export_forgets_respelled_email_witness :
  export_csv (λ d, elements (dom d))
    (heap (add_result "holehe" (VRef 0)
             (World (lone_email_heap "Ann@B.c") 0 init)).1)
    (agg (add_result "holehe" (VRef 0)
            (World (lone_email_heap "Ann@B.c") 0 init)).1)
    "emails"
  = Exported [email_header;
              [VStr (normalize Emails "Ann@B.c"); VStr "unknown"; VInt 50]].
Proof.
  apply (export_forgets_respelled_email (λ d, elements (dom d))
           "holehe" "Ann@B.c").
  vm_compute. discriminate.
Defined.

Lemma deduplicated_resolve key σ items out e :
  dedup_loop key σ items ∅ [] = Ok out → e ∈ out → is_Some (resolve σ e).
Proof.
  intros Hout He.
  pose proof (dedup_loop_keys key σ items ∅ [] out Hout) as Hall.
  pose proof (dedup_with_first_seen key σ items out Hout) as (Hsub & _).
  rewrite Forall_forall in Hall.
  destruct (Hall e (elem_of_sublist _ _ _ He Hsub)) as [k Hk].
  unfold key_of in Hk. by destruct (resolve σ e).
Qed.

(** X11. The export of the social profiles needs every profile of the report to
    have no other field than platform, username, url and source. Then the
    file has the header and a row for each profile. A profile with another
    field, such as the email and exists of the profiles of holehe, stops the
    export with [ValueError]: the file keeps the header and the rows of the
    profiles before it. *)
Theorem export_profiles_fields
    (keys : dict → list string) (σ : store) (a : aggregator) (r : report) :
  get_aggregated_results σ a = Ok r →
  let profiles := data_social_profiles (report_data r) in
  (Forall (fits profile_fields σ) profiles →
   ∃ rows,
     export_csv keys σ a "social_profiles"
     = Exported ((VStr <$> profile_fields) :: rows)
     ∧ length rows = length profiles)
  ∧ (∀ good bad d rest,
       profiles = good ++ bad :: rest →
       Forall (fits profile_fields σ) good →
       resolve σ bad = Some d →
       ¬ (dom d ⊆ list_to_set profile_fields) →
       ∃ rows,
         export_csv keys σ a "social_profiles"
         = Interrupted ((VStr <$> profile_fields) :: rows) ValueError
         ∧ length rows = length good).
Proof.
  intros Hr profiles. unfold export_csv. rewrite Hr. cbn [String.eqb Ascii.eqb].
  change (String.eqb "social_profiles" "emails") with false.
  change (String.eqb "social_profiles" "social_profiles") with true.
  cbn iota. fold profiles. split.
  - intros Hall. rewrite write_dicts_app by done.
    eexists. split; [reflexivity |]. by rewrite length_fmap.
  - intros good bad d rest -> Hgood Hbad Hd.
    erewrite write_dicts_stop by done.
    eexists. split; [reflexivity |]. by rewrite length_fmap.
Qed.

Lemma export_profiles_fields_witness :
  let w := after holehe_heap [("holehe", VRef 0)] in
  ∃ rows,
    export_csv (λ d, elements (dom d)) (heap w) (agg w) "social_profiles"
    = Interrupted ((VStr <$> profile_fields) :: rows) ValueError
    ∧ length rows = 1.
Proof.
  intros w. vm_compute in w.
  destruct (get_aggregated_results (heap w) (agg w)) as [r|e] eqn:Hr.
  - destruct (export_profiles_fields (λ d, elements (dom d))
                (heap w) (agg w) r Hr) as [_ Hstop].
    assert (data_social_profiles (report_data r) = [Shared 2] ++ Shared 3 :: [])
      as Hps.
    { vm_compute in Hr. injection Hr as <-. reflexivity. }
    destruct (Hstop [Shared 2] (Shared 3)
                (<["source" := VStr "holehe"]>
                   {[ "platform" := VStr "github"; "email" := VStr "a@b.c";
                      "exists" := VBool true ]})
                [] Hps) as (rows & Hrows & Hlen).
    + constructor; [| constructor].
      exists (<["source" := VStr "holehe"]>
                {[ "platform" := VStr "x";
                   "url" := VStr "https://x.com/ann" ]}).
      split; [vm_compute; reflexivity |].
      apply (bool_decide_unpack _). vm_compute. exact I.
    + vm_compute. reflexivity.
    + intros Hsub. apply (bool_decide_pack _) in Hsub.
      vm_compute in Hsub. exact Hsub.
    + exists rows. split; [exact Hrows | exact Hlen].
  - vm_compute in Hr. discriminate Hr.
Defined.

End CsvExportTheory.

(** * The step loop and the summary, for any workflow *)

Module WorkflowRuns.
Import Orchestrator WorkflowExamples RunExamples OrchestratorTheory.

(** The entry the step loop files for what a collector did. *)
Definition recorded (o : outcome) : entry :=
  match o with
  | Returned (VRef l) => Shared l
  | Returned v => Fresh (failed_result (no_get v))
  | Raised msg => Fresh (failed_result msg)
  end.

Section WithEnvironment.

Variable σ : store.
Variable _run_plugin : plugin_name → string → option value → outcome.

Local Abbreviation run_step := (run_step σ _run_plugin).
Local Abbreviation run_steps := (run_steps σ _run_plugin).
Local Abbreviation execute_workflow := (execute_workflow σ _run_plugin).

(** A dict that a collector returns is an object of the heap. *)
Definition allocated (tgt : string) (nc : plugin_name * option value) : Prop :=
  ∀ l, _run_plugin nc.1 tgt nc.2 = Returned (VRef l) → is_Some (σ !! l).

(** What the loop files for one step. *)
Definition filed (tgt : string) (nc : plugin_name * option value)
    (plugins : list (plugin_name * entry)) : list (plugin_name * entry) :=
  assign nc.1 (recorded (_run_plugin nc.1 tgt nc.2)) plugins.

Lemma run_step_read tgt step nc plugins w :
  read_step σ step = Ok nc → allocated tgt nc →
  run_step tgt step plugins w
  = (World (clock w) (invoked w ++ [Invocation nc.1 tgt nc.2]) (saved w),
     Ok (filed tgt nc plugins)).
Proof.
  intros Hread Halloc.
  unfold Orchestrator.run_step, bind, lift, invoke, filed. rewrite Hread.
  cbn [clock invoked saved].
  destruct (_run_plugin nc.1 tgt nc.2) as [[| | | | |l]|msg] eqn:Hrun;
    try reflexivity.
  destruct (Halloc l Hrun) as [d Hd].
  unfold Orchestrator.deref. by rewrite Hd.
Qed.

Lemma run_step_unread tgt step e plugins w :
  read_step σ step = Raise e → run_step tgt step plugins w = (w, Raise e).
Proof.
  intros Hread. unfold Orchestrator.run_step, bind, lift. by rewrite Hread.
Qed.

Lemma run_steps_app tgt pre rest plugins w :
  run_steps tgt (pre ++ rest) plugins w
  = match run_steps tgt pre plugins w with
    | (w1, Ok plugins1) => run_steps tgt rest plugins1 w1
    | (w1, Raise e) => (w1, Raise e)
    end.
Proof.
  revert plugins w. induction pre as [|step pre IH]; intros plugins w.
  - reflexivity.
  - cbn [app Orchestrator.run_steps]. unfold bind.
    destruct (run_step tgt step plugins w) as [w1 [plugins1|e]];
      [apply IH | reflexivity].
Qed.

Lemma run_steps_read tgt steps ncs plugins w :
  Forall2 (λ step nc, read_step σ step = Ok nc) steps ncs →
  Forall (allocated tgt) ncs →
  run_steps tgt steps plugins w
  = (World (clock w)
       (invoked w ++ ((λ nc, Invocation nc.1 tgt nc.2) <$> ncs)) (saved w),
     Ok (foldl (λ ps nc, filed tgt nc ps) plugins ncs)).
Proof.
  intros Hread. revert plugins w.
  induction Hread as [|step nc steps ncs Hstep _ IH]; intros plugins w Halloc.
  - cbn. rewrite app_nil_r. by destruct w.
  - apply Forall_cons in Halloc as [Hnc Halloc].
    cbn [Orchestrator.run_steps]. unfold bind.
    rewrite (run_step_read tgt step nc) by done.
    rewrite IH by done. cbn [clock invoked saved fmap list_fmap foldl].
    by rewrite <- app_assoc.
Qed.

(** The step loop reads and writes neither the clock nor the files, and it
    only adds to the invocations. *)
Lemma run_steps_frame tgt steps plugins w :
  clock (run_steps tgt steps plugins w).1 = clock w
  ∧ saved (run_steps tgt steps plugins w).1 = saved w
  ∧ invoked w `prefix_of` invoked (run_steps tgt steps plugins w).1.
Proof.
  revert plugins w. induction steps as [|step steps IH]; intros plugins w.
  - done.
  - cbn [Orchestrator.run_steps]. unfold bind.
    assert (clock (run_step tgt step plugins w).1 = clock w
            ∧ saved (run_step tgt step plugins w).1 = saved w
            ∧ invoked w `prefix_of` invoked (run_step tgt step plugins w).1)
      as Hstep.
    { unfold Orchestrator.run_step, bind, lift, invoke.
      destruct (read_step σ step) as [nc|e]; [| done].
      cbn [clock invoked saved].
      assert (invoked w `prefix_of` invoked w ++ [Invocation nc.1 tgt nc.2])
        by apply prefix_app_r, reflexivity.
      destruct (_run_plugin nc.1 tgt nc.2) as [[| | | | |l]|msg]; try done.
      unfold Orchestrator.deref. by destruct (σ !! l). }
    destruct (run_step tgt step plugins w) as [w1 [plugins1|e]]; [| done].
    destruct Hstep as (Hc & Hs & Hi).
    destruct (IH plugins1 w1) as (Hc' & Hs' & Hi').
    cbn [fst] in Hc, Hs, Hi.
    rewrite Hc', Hs', Hc, Hs. repeat split. by etrans.
Qed.

End WithEnvironment.

(** *** Assignment to an insertion-ordered dict *)

Lemma assign_keys {V} k (v : V) m :
  (assign k v m).*1 = if decide (k ∈ m.*1) then m.*1 else m.*1 ++ [k].
Proof.
  induction m as [|[k' v'] m IH]; [done |].
  cbn [assign]. destruct (decide (k' = k)) as [->|Hne].
  - cbn. rewrite decide_True by left. done.
  - cbn [fmap list_fmap fst]. change (list_fmap _ _ fst ?l) with (l.*1).
    rewrite IH. destruct (decide (k ∈ m.*1)) as [Hin|Hnin].
    + rewrite decide_True by (by right). done.
    + rewrite decide_False; [done |].
      intros [?|?]%elem_of_cons; [congruence | done].
Qed.

Lemma assign_NoDup {V} k (v : V) m : NoDup m.*1 → NoDup (assign k v m).*1.
Proof.
  intros Hm. rewrite assign_keys. case_decide; [done |].
  apply NoDup_app. repeat split; [done | | apply NoDup_singleton].
  intros x Hx ->%list_elem_of_singleton. done.
Qed.

Lemma assign_elem_of_keys {V} k (v : V) m k' :
  k' ∈ (assign k v m).*1 ↔ k' = k ∨ k' ∈ m.*1.
Proof.
  rewrite assign_keys. case_decide.
  - split; [by right | by intros [->|?]].
  - rewrite elem_of_app, list_elem_of_singleton. tauto.
Qed.

Lemma assign_elem_of {V} k (v : V) m : (k, v) ∈ assign k v m.
Proof.
  induction m as [|[k' v'] m IH]; [by left |].
  cbn [assign]. case_decide; [by left | by right].
Qed.

Lemma assign_other {V} k (v : V) m k' v' :
  k' ≠ k → (k', v') ∈ m → (k', v') ∈ assign k v m.
Proof.
  intros Hne. induction m as [|[k0 v0] m IH]; [by intros ?%elem_of_nil |].
  intros [Heq|Hin]%elem_of_cons; cbn [assign].
  - injection Heq as <- <-. rewrite decide_False by done. by left.
  - case_decide; right; [done | by apply IH].
Qed.

Lemma assign_length {V} k (v : V) m :
  length m ≤ length (assign k v m) ≤ S (length m).
Proof.
  induction m as [|[k' v'] m IH]; [cbn; lia |].
  cbn [assign]. case_decide; cbn [length]; lia.
Qed.

Section StepLoop.

Variable σ : store.
Variable _run_plugin : plugin_name → string → option value → outcome.

Local Abbreviation filed := (filed _run_plugin).

Lemma filed_all_NoDup tgt ncs plugins :
  NoDup plugins.*1 → NoDup (foldl (λ ps nc, filed tgt nc ps) plugins ncs).*1.
Proof.
  revert plugins. induction ncs as [|nc ncs IH]; intros plugins Hp; [done |].
  cbn [foldl]. apply IH. by apply assign_NoDup.
Qed.

Lemma filed_all_keys tgt ncs plugins k :
  k ∈ (foldl (λ ps nc, filed tgt nc ps) plugins ncs).*1
  ↔ k ∈ plugins.*1 ∨ k ∈ ncs.*1.
Proof.
  revert plugins. induction ncs as [|nc ncs IH]; intros plugins.
  - cbn. rewrite elem_of_nil. tauto.
  - cbn [foldl]. rewrite IH. unfold WorkflowRuns.filed.
    rewrite assign_elem_of_keys. rewrite fmap_cons, elem_of_cons. tauto.
Qed.

Lemma filed_all_keeps tgt ncs plugins k e :
  k ∉ ncs.*1 → (k, e) ∈ plugins →
  (k, e) ∈ foldl (λ ps nc, filed tgt nc ps) plugins ncs.
Proof.
  revert plugins. induction ncs as [|nc ncs IH]; intros plugins Hk Hin;
    [done |].
  rewrite fmap_cons, not_elem_of_cons in Hk. destruct Hk as [Hne Hk].
  cbn [foldl]. apply IH; [done |]. by apply assign_other.
Qed.

Lemma filed_all_length tgt ncs plugins :
  length (foldl (λ ps nc, filed tgt nc ps) plugins ncs)
  ≤ length plugins + length ncs.
Proof.
  revert plugins. induction ncs as [|nc ncs IH]; intros plugins;
    [cbn; lia |].
  cbn [foldl length]. specialize (IH (filed tgt nc plugins)).
  pose proof (assign_length nc.1 (recorded (_run_plugin nc.1 tgt nc.2)) plugins).
  unfold WorkflowRuns.filed in *. lia.
Qed.


(** *** The summary *)

Lemma tally_counts items ok ko acc ok' ko' acc' :
  tally σ items ok ko acc = Ok (ok', ko', acc') →
  ok' + ko' = ok + ko + length items.
Proof.
  revert ok ko acc. induction items as [|[k e] items IH]; intros ok ko acc.
  - intros [= <- <- <-]. cbn. lia.
  - cbn [tally length]. destruct (resolve σ e) as [d|]; [| done].
    destruct (succeeded d).
    + destruct (d !! "findings") as [[| | | | |f]|]; try done.
      * destruct (Orchestrator.deref σ f); [| done].
        intros ->%IH. lia.
      * intros ->%IH. lia.
    + intros ->%IH. lia.
Qed.

(** X13. Whenever [_generate_summary] returns, every entry of the result map has
    been counted once, as a success or as a failure. *)
Theorem summary_counts_add_up
    (plugins : list (plugin_name * entry)) (sm : summary) :
  _generate_summary σ plugins = Ok sm →
  total_plugins sm = length plugins
  ∧ successful sm + failed sm = total_plugins sm.
Proof.
  unfold _generate_summary.
  destruct (tally σ plugins 0 0 ∅) as [[[ok ko] acc]|] eqn:Htally; [| done].
  destruct (make_highlights acc); [| done].
  intros [= <-]. cbn. split; [done |].
  apply tally_counts in Htally. lia.
Qed.

(** What the entry of a collector gives to [summary['findings'][kind]]: the
    values it reports for the kind, if it succeeded. *)
Definition reported (kind : string) (e : entry) : option (list value) :=
  match resolve σ e with
  | Some d =>
      if succeeded d then
        match d !! "findings" with
        | Some (VRef f) =>
            match σ !! f with
            | Some found => as_list <$> found !! kind
            | None => None
            end
        | _ => None
        end
      else None
  | None => None
  end.

Definition extend (o : option (list value)) (part : option (list value))
    : option (list value) :=
  match part with
  | Some vs => Some (default [] o ++ vs)
  | None => o
  end.

Lemma tally_lookup items ok ko acc ok' ko' acc' kind :
  tally σ items ok ko acc = Ok (ok', ko', acc') →
  acc' !! kind
  = foldl (λ o e, extend o (reported kind e)) (acc !! kind) items.*2.
Proof.
  revert ok ko acc. induction items as [|[k e] items IH]; intros ok ko acc.
  - by intros [= <- <- <-].
  - cbn [tally fmap list_fmap foldl snd]. unfold reported at 2.
    destruct (resolve σ e) as [d|]; [| done].
    destruct (succeeded d); [| by apply IH].
    destruct (d !! "findings") as [[| | | | |f]|]; try done; [| by apply IH].
    unfold Orchestrator.deref. destruct (σ !! f) as [found|]; [| done].
    intros ->%IH. f_equal. rewrite collect_lookup.
    by destruct (found !! kind).
Qed.

Lemma foldl_extend f o (es : list entry) :
  foldl (λ o e, extend o (f e)) o es
  = match omap f es with
    | [] => o
    | parts => Some (default [] o ++ concat parts)
    end.
Proof.
  revert o. induction es as [|e es IH]; intros o; [done |].
  cbn [foldl omap list_omap]. rewrite IH. destruct (f e) as [vs|]; [| done].
  destruct (omap f es) as [|part parts]; simpl.
  - by rewrite app_nil_r.
  - by rewrite <- app_assoc.
Qed.

(** X14. The findings of the summary for a kind are the values that the
    successful collectors report for it, one after the other in the order
    of the result map and with their repetitions; the kind is absent when
    no successful collector reports it. What a failed collector found is
    left out. *)
Theorem summary_findings_are_concatenated
    (plugins : list (plugin_name * entry)) (sm : summary) (kind : string) :
  _generate_summary σ plugins = Ok sm →
  findings sm !! kind
  = match omap (reported kind) plugins.*2 with
    | [] => None
    | parts => Some (concat parts)
    end.
Proof.
  unfold _generate_summary.
  destruct (tally σ plugins 0 0 ∅) as [[[ok ko] acc]|] eqn:Htally; [| done].
  destruct (make_highlights acc); [| done].
  intros [= <-]. cbn [findings].
  rewrite (tally_lookup _ _ _ _ _ _ _ kind Htally), foldl_extend.
  rewrite lookup_empty. by destruct (omap (reported kind) plugins.*2).
Qed.

(** What [summary['findings']] holds is never taken out again. *)
Lemma tally_keeps items ok ko acc ok' ko' acc' kind xs x :
  tally σ items ok ko acc = Ok (ok', ko', acc') →
  acc !! kind = Some xs → x ∈ xs →
  ∃ xs', acc' !! kind = Some xs' ∧ x ∈ xs'.
Proof.
  revert ok ko acc xs. induction items as [|[k e] items IH];
    intros ok ko acc xs.
  - intros [= <- <- <-]. eauto.
  - cbn [tally]. destruct (resolve σ e) as [d|]; [| done].
    destruct (succeeded d); [| by apply IH].
    destruct (d !! "findings") as [[| | | | |f]|]; try done; [| by apply IH].
    destruct (Orchestrator.deref σ f) as [found|]; [| done].
    intros Htally Hk Hx.
    destruct (collect_keeps found acc kind xs x Hk Hx) as (xs1 & Hk1 & Hx1).
    by eapply IH.
Qed.

Lemma tally_elem items ok ko acc ok' ko' acc' k e d f found kind v x :
  tally σ items ok ko acc = Ok (ok', ko', acc') →
  (k, e) ∈ items → resolve σ e = Some d → succeeded d = true →
  d !! "findings" = Some (VRef f) → σ !! f = Some found →
  found !! kind = Some v → x ∈ as_list v →
  ∃ xs, acc' !! kind = Some xs ∧ x ∈ xs.
Proof.
  intros Htally Hin Hd Hs Hf Hfound Hkind Hx.
  revert ok ko acc Htally. induction items as [|[k0 e0] items IH];
    intros ok ko acc; [by apply elem_of_nil in Hin |].
  apply elem_of_cons in Hin as [Heq|Hin].
  - injection Heq as <- <-. cbn [tally]. rewrite Hd, Hs, Hf.
    unfold Orchestrator.deref. rewrite Hfound. intros Htally.
    destruct (collect_elem found acc kind v x Hkind Hx) as (xs & Hxs & Hxin).
    by eapply tally_keeps.
  - cbn [tally]. destruct (resolve σ e0) as [d0|]; [| done].
    destruct (succeeded d0); [| by apply IH].
    destruct (d0 !! "findings") as [[| | | | |f0]|]; try done; [| by apply IH].
    destruct (Orchestrator.deref σ f0); [| done]. by apply IH.
Qed.

Lemma highlight_unique_cases acc kind text hs :
  (∃ hs', highlight_unique acc kind text hs = Ok hs')
  ∨ highlight_unique acc kind text hs = Raise TypeError.
Proof.
  unfold highlight_unique, unique_count.
  destruct (acc !! kind) as [[|x xs]|]; [by left; eexists | | by left; eexists].
  destruct (mapM hash_key (x :: xs)); [by left; eexists | by right].
Qed.

Lemma highlight_unique_unhashable acc kind text hs xs x :
  acc !! kind = Some xs → x ∈ xs → hash_key x = None →
  highlight_unique acc kind text hs = Raise TypeError.
Proof.
  intros Hk Hx Hh. unfold highlight_unique, unique_count. rewrite Hk.
  destruct xs as [|y ys]; [by apply elem_of_nil in Hx |].
  destruct (mapM hash_key (y :: ys)) as [ks|] eqn:Hks; [| done].
  assert (is_Some (mapM hash_key (y :: ys))) as Hsome by eauto.
  rewrite mapM_is_Some, Forall_forall in Hsome.
  destruct (Hsome x Hx) as [? Hc]. cbn in Hc. congruence.
Qed.

Lemma make_highlights_unhashable acc kind xs x :
  kind ∈ counted → acc !! kind = Some xs → x ∈ xs → hash_key x = None →
  make_highlights acc = Raise TypeError.
Proof.
  intros Hc Hk Hx Hh. unfold make_highlights.
  pose proof (λ text hs, highlight_unique_unhashable acc kind text hs xs x
                           Hk Hx Hh) as Hbad.
  destruct (highlight_unique_cases acc "emails"
              " unique email(s) discovered" []) as [[h1 H1]|H1];
    rewrite H1; [| done].
  destruct (highlight_unique_cases acc "usernames"
              " social media profile(s) found" h1) as [[h2 H2]|H2];
    rewrite H2; [| done].
  destruct (highlight_unique_cases acc "subdomains"
              " subdomain(s) enumerated" h2) as [[h3 H3]|H3];
    rewrite H3; [| done].
  unfold counted in Hc.
  repeat (apply elem_of_cons in Hc as [->|Hc]);
    [rewrite Hbad in H1; discriminate H1
    |rewrite Hbad in H2; discriminate H2
    |rewrite Hbad in H3; discriminate H3
    |apply Hbad
    |by apply elem_of_nil in Hc].
Qed.

(** The run of [execute_workflow] when the summary raises: the second clock
    reading is taken, nothing is written. *)
Lemma execute_workflow_summary_raises wf d tgt steps w w1 plugins e :
  σ !! wf = Some d →
  steps_of d = Ok steps →
  run_steps σ _run_plugin tgt steps []
    (World (S (clock w)) (invoked w) (saved w))
  = (w1, Ok plugins) →
  _generate_summary σ plugins = Raise e →
  execute_workflow σ _run_plugin (VRef wf) tgt w
  = (World (S (clock w1)) (invoked w1) (saved w1), Raise e).
Proof.
  intros Hwf Hsteps Hrun Hsum.
  unfold Orchestrator.execute_workflow, bind, now, lift, Orchestrator.deref.
  rewrite Hwf, Hsteps. cbn [clock invoked saved]. rewrite Hrun.
  cbn [clock invoked saved]. by rewrite Hsum.
Qed.

Lemma execute_workflow_steps_raise wf d tgt steps w w1 e :
  σ !! wf = Some d →
  steps_of d = Ok steps →
  run_steps σ _run_plugin tgt steps []
    (World (S (clock w)) (invoked w) (saved w))
  = (w1, Raise e) →
  execute_workflow σ _run_plugin (VRef wf) tgt w = (w1, Raise e).
Proof.
  intros Hwf Hsteps Hrun.
  unfold Orchestrator.execute_workflow, bind, now, lift, Orchestrator.deref.
  rewrite Hwf, Hsteps. cbn [clock invoked saved]. by rewrite Hrun.
Qed.



End StepLoop.


Lemma summary_counts_add_up_witness :
  ∃ sm,
    _generate_summary trio_heap
      [(Some "holehe", Shared 1);
       (Some "hibp", Fresh (failed_result "API key not configured"));
       (Some "sherlock", Shared 3)]
    = Ok sm
    ∧ total_plugins sm = 3
    ∧ successful sm + failed sm = total_plugins sm.
Proof.
  destruct (_generate_summary trio_heap
              [(Some "holehe", Shared 1);
               (Some "hibp", Fresh (failed_result "API key not configured"));
               (Some "sherlock", Shared 3)]) as [sm|e] eqn:Hsm.
  - exists sm. split; [reflexivity |].
    exact (summary_counts_add_up trio_heap _ sm Hsm).
  - vm_compute in Hsm. discriminate Hsm.
Defined.

Lemma summary_findings_are_concatenated_witness :
  ∃ sm,
    _generate_summary trio_heap
      [(Some "holehe", Shared 1);
       (Some "hibp", Fresh (failed_result "API key not configured"));
       (Some "sherlock", Shared 3)]
    = Ok sm
    ∧ findings sm !! "accounts" = Some [VStr "github"; VStr "gitlab"].
Proof.
  destruct (_generate_summary trio_heap
              [(Some "holehe", Shared 1);
               (Some "hibp", Fresh (failed_result "API key not configured"));
               (Some "sherlock", Shared 3)]) as [sm|e] eqn:Hsm.
  - exists sm. split; [reflexivity |].
    rewrite (summary_findings_are_concatenated trio_heap _ sm "accounts" Hsm).
    vm_compute. reflexivity.
  - vm_compute in Hsm. discriminate Hsm.
Defined.



End WorkflowRuns.

(** * Properties of targets *)

Module TargetTheory.
Import PySplit Cli PluginBase CronosBridge CsvExport.

Lemma has_cons c x s : has c (String x s) = Ascii.eqb x c || has c s.
Proof.
  unfold has. cbn [PyStr.contains String.prefix].
  destruct (ascii_dec c x) as [->|Hne].
  - rewrite Ascii.eqb_refl. by destruct s.
  - destruct (Ascii.eqb_spec x c) as [->|_]; [done |]. reflexivity.
Qed.

Lemma has_nil c : has c EmptyString = false.
Proof. reflexivity. Qed.

Lemma append_cons x s t : String x s +:+ t = String x (s +:+ t).
Proof. reflexivity. Qed.

Lemma has_app c s t : has c (s +:+ t) = has c s || has c t.
Proof.
  induction s as [|x s IH]; [done |].
  by rewrite append_cons, !has_cons, IH, orb_assoc.
Qed.

Lemma has_replace_char c by_ s :
  has c by_ = false → has c (PyStr.replace_char c by_ s) = false.
Proof.
  intros Hby. induction s as [|x s IH]; [done |].
  cbn [PyStr.replace_char]. rewrite has_app, IH, orb_false_r.
  destruct (Ascii.eqb x c) eqn:Hx; [done |].
  by rewrite has_cons, Hx.
Qed.

Lemma has_replace_char_other c' c by_ s :
  has c' by_ = false → has c' s = false →
  has c' (PyStr.replace_char c by_ s) = false.
Proof.
  intros Hby. induction s as [|x s IH]; [done |].
  rewrite has_cons. intros [Hx Hs]%orb_false_elim.
  cbn [PyStr.replace_char]. rewrite has_app, (IH Hs), orb_false_r.
  destruct (Ascii.eqb x c); [done |]. by rewrite has_cons, Hx.
Qed.

Lemma split_char_nonempty c s : split_char c s ≠ [].
Proof.
  destruct s as [|x s]; [done |]. cbn [split_char].
  destruct (Ascii.eqb x c); [done |]. by destruct (split_char c s).
Qed.

Lemma split_char_has c s : has c s = true → 2 ≤ length (split_char c s).
Proof.
  induction s as [|x s IH]; [done |].
  rewrite has_cons. cbn [split_char].
  pose proof (split_char_nonempty c s) as Hne.
  destruct (Ascii.eqb x c).
  - intros _. destruct (split_char c s); [done | cbn; lia].
  - intros Hs. specialize (IH Hs).
    destruct (split_char c s); [done | exact IH].
Qed.

Lemma split_char_whole c s : has c s = false → split_char c s = [s].
Proof.
  induction s as [|x s IH]; [done |].
  rewrite has_cons. cbn [split_char].
  destruct (Ascii.eqb x c); [done |]. intros Hs. by rewrite (IH Hs).
Qed.

Lemma split_char_app c p s :
  has c p = false →
  split_char c (p +:+ String c s) = p :: split_char c s.
Proof.
  induction p as [|x p IH].
  - intros _. change ("" +:+ String c s) with (String c s).
    cbn [split_char]. by rewrite Ascii.eqb_refl.
  - rewrite has_cons, append_cons. cbn [split_char].
    destruct (Ascii.eqb x c); [done |]. intros Hp. by rewrite (IH Hp).
Qed.

Lemma split_char_pieces c s :
  Forall (λ piece, has c piece = false) (split_char c s).
Proof.
  induction s as [|x s IH]; [by repeat constructor |].
  cbn [split_char]. destruct (Ascii.eqb x c) eqn:Hx.
  - by constructor.
  - destruct (split_char c s) as [|piece pieces].
    + repeat constructor. rewrite has_cons, Hx. done.
    + apply Forall_cons in IH as [Hp Hps]. constructor; [| done].
      by rewrite has_cons, Hx.
Qed.

Lemma append_nil_r s : s +:+ "" = s.
Proof. induction s as [|x s IH]; [done |]. by rewrite append_cons, IH. Qed.

Lemma append_assoc s t u : (s +:+ t) +:+ u = s +:+ (t +:+ u).
Proof. induction s as [|x s IH]; [done |]. by rewrite !append_cons, IH. Qed.

Lemma join_cons sep x xs :
  xs ≠ [] → join sep (x :: xs) = x +:+ sep +:+ join sep xs.
Proof. by destruct xs. Qed.

(** Joining the pieces of a split gives the string back. *)
Lemma join_split c s : join (String c "") (split_char c s) = s.
Proof.
  induction s as [|x s IH]; [done |].
  cbn [split_char]. pose proof (split_char_nonempty c s) as Hne.
  destruct (Ascii.eqb_spec x c) as [->|Hx].
  - rewrite join_cons by done. rewrite IH. reflexivity.
  - destruct (split_char c s) as [|piece [|piece' pieces]]; [done | |].
    + cbn [join] in *. by rewrite IH.
    + rewrite join_cons in * by done. by rewrite append_cons, IH.
Qed.

(** Splitting a join of pieces without separator gives the pieces back. *)
Lemma split_join c pieces :
  pieces ≠ [] → Forall (λ piece, has c piece = false) pieces →
  split_char c (join (String c "") pieces) = pieces.
Proof.
  induction pieces as [|p pieces IH]; [done |]. intros _ Hall.
  apply Forall_cons in Hall as [Hp Hall].
  destruct pieces as [|p' pieces].
  - cbn. by apply split_char_whole.
  - rewrite join_cons by done.
    change (String c "" +:+ ?s) with (String c s).
    rewrite split_char_app by done. by rewrite IH.
Qed.

Lemma join_app sep xs ys :
  xs ≠ [] → ys ≠ [] →
  join sep (xs ++ ys) = join sep xs +:+ sep +:+ join sep ys.
Proof.
  intros Hxs Hys. induction xs as [|x xs IH]; [done |].
  destruct xs as [|x' xs].
  - cbn [app]. by rewrite join_cons.
  - change ((x :: x' :: xs) ++ ys) with (x :: ((x' :: xs) ++ ys)).
    rewrite !join_cons by (done || by destruct ys).
    rewrite IH by done. by rewrite !append_assoc.
Qed.

(** X17. The test on the number of parts in the choice of a workflow never
    decides: a target with [@] is an email whatever else it holds, any other
    target with a dot is taken for a domain, and the rest are usernames. *)
Theorem detect_workflow_by_characters (target : string) :
  detect_workflow target
  = if has "@" target then "email_intelligence"
    else if has "." target then "domain_reconnaissance"
    else "username_enumeration".
Proof.
  unfold detect_workflow. destruct (has "@" target); [done |].
  destruct (has "." target) eqn:Hdot; [| done].
  apply split_char_has in Hdot. cbn [andb].
  by destruct (Nat.leb_spec 2 (length (split_char "." target))); [| lia].
Qed.

(** X18. The stem that [_save_results] makes of a target holds none of the
    three characters it replaces: no [@], no dot and no slash, so the name
    of the file has one extension and no directory of the target's. *)
Theorem target_safe_has_no_separator (tgt : string) :
  has "@" (Orchestrator.target_safe tgt) = false
  ∧ has "." (Orchestrator.target_safe tgt) = false
  ∧ has "/" (Orchestrator.target_safe tgt) = false.
Proof.
  unfold Orchestrator.target_safe. repeat apply conj.
  - apply has_replace_char_other; [done |].
    apply has_replace_char_other; [done |]. by apply has_replace_char.
  - apply has_replace_char_other; [done |]. by apply has_replace_char.
  - by apply has_replace_char.
Qed.

(** X19. The helpers of a collector on a target with [@]: both return a string,
    no index is out of range; the user name is what stands before the first
    [@] and the domain what stands between the first and the second, so the
    two and an [@] give the target back exactly when it has one [@]. *)
Theorem extract_parts_of_email (netloc : string → string) (target : string) :
  has "@" target = true →
  ∃ username domain rest,
    _extract_username_from_email target = Item (Some username)
    ∧ _extract_domain_from_target netloc target = Item (Some domain)
    ∧ target = username +:+ "@" +:+ domain +:+ rest
    ∧ has "@" username = false
    ∧ has "@" domain = false
    ∧ (rest = "" ∨ ∃ more, rest = String "@" more).
Proof.
  intros Hat.
  unfold _extract_username_from_email, _extract_domain_from_target, getitem.
  rewrite Hat.
  pose proof (split_char_has "@" target Hat) as Hlen.
  pose proof (split_char_pieces "@" target) as Hpieces.
  pose proof (join_split "@" target) as Hjoin.
  destruct (split_char "@" target) as [|u [|d more]]; [cbn in Hlen; lia.. |].
  apply Forall_cons in Hpieces as [Hu Hpieces].
  apply Forall_cons in Hpieces as [Hd _].
  exists u, d.
  exists (match more with [] => "" | _ => "@" +:+ join "@" more end).
  repeat apply conj; try done.
  - rewrite <- Hjoin. rewrite join_cons by done.
    destruct more as [|m more].
    + cbn [join]. by rewrite append_nil_r.
    + by rewrite join_cons by done.
  - destruct more; [by left | right; by eexists].
Qed.

Lemma last_items_two {A} (xs : list A) :
  2 ≤ length xs →
  ∃ front a b, xs = front ++ [a; b] ∧ last_items 2 xs = [a; b].
Proof.
  intros Hlen. unfold last_items.
  exists (take (length xs - 2) xs).
  pose proof (take_drop (length xs - 2) xs) as Hsplit.
  assert (length (drop (length xs - 2) xs) = 2) as Hdrop
    by (rewrite length_drop; lia).
  destruct (drop (length xs - 2) xs) as [|a [|b [|c rest]]];
    try discriminate Hdrop.
  exists a, b. by rewrite Hsplit.
Qed.

(** X20. The domain derived from a subdomain is its last two labels: it ends
    the subdomain, has exactly one dot, and deriving a domain from it gives
    it again. A name without a dot gives no domain. *)
Theorem domain_of_last_two_labels (subdomain domain : string) :
  domain_of subdomain = Some domain →
  has "." subdomain = true
  ∧ (∃ front, subdomain = front +:+ domain)
  ∧ length (split_char "." domain) = 2
  ∧ domain_of domain = Some domain.
Proof.
  unfold domain_of.
  destruct (Nat.leb_spec 2 (length (split_char "." subdomain))) as [Hlen|Hlen];
    [| done].
  intros [= <-].
  destruct (last_items_two _ Hlen) as (front & a & b & Hparts & ->).
  pose proof (split_char_pieces "." subdomain) as Hpieces.
  rewrite Hparts, Forall_app in Hpieces. destruct Hpieces as [_ Hab].
  assert (split_char "." (join "." [a; b]) = [a; b]) as Hsplit
    by (by apply split_join).
  repeat apply conj.
  - destruct (has "." subdomain) eqn:Hdot; [done |].
    rewrite (split_char_whole _ _ Hdot) in Hlen. cbn in Hlen. lia.
  - assert (subdomain = join "." (front ++ [a; b])) as Hs
      by (by rewrite <- Hparts, join_split).
    destruct front as [|f front].
    + by exists "".
    + exists (join "." (f :: front) +:+ ".").
      etrans; [exact Hs |]. rewrite join_app by done.
      by rewrite append_assoc.
  - by rewrite Hsplit.
  - by rewrite Hsplit.
Qed.

Lemma extract_parts_of_email_witness :
  ∃ username domain rest,
    _extract_username_from_email "ann@example.com@evil" = Item (Some username)
    ∧ _extract_domain_from_target (λ url, url) "ann@example.com@evil"
      = Item (Some domain)
    ∧ "ann@example.com@evil" = username +:+ "@" +:+ domain +:+ rest.
Proof.
  destruct (extract_parts_of_email (λ url, url) "ann@example.com@evil")
    as (username & domain & rest & Hu & Hd & Ht & _);
    [reflexivity |].
  exists username, domain, rest.
  repeat apply conj; [exact Hu | exact Hd | exact Ht].
Defined.

Lemma domain_of_last_two_labels_witness :
  has "." "www.example.co.uk" = true
  ∧ length (split_char "." "co.uk") = 2
  ∧ domain_of "co.uk" = Some "co.uk".
Proof.
  destruct (domain_of_last_two_labels "www.example.co.uk" "co.uk")
    as (Hdot & _ & Hlen & Hagain); [reflexivity |].
  repeat apply conj; [exact Hdot | exact Hlen | exact Hagain].
Defined.

End TargetTheory.

(** * Properties of the API key lookup *)

Module ConfigTheory.
Import ConfigManager.

(** No key for the variable, or an empty one. *)
Definition no_key (k : option string) : Prop := k = None ∨ k = Some "".

(** X21. The documented last source of an API key, ops.json of Cronos, is not
    consulted for a service that the config file does not mention: the
    default of the lookup is an empty dict, whose ['key'] is returned.
    Without a key in the environment and in the keyring, [get_api_key]
    returns [None] whatever ops.json holds. *)
Theorem missing_entry_hides_cronos
    (σ : store) (upper : string → string) (getenv : string → option string)
    (get_password : string → string → keyring_answer)
    (_get_cronos_api_key : string → value)
    (config : dict) (service : string) :
  no_key (getenv (env_var upper service)) →
  (get_password "phineas" service = KeyringError
   ∨ ∃ p, get_password "phineas" service = Password p ∧ no_key p) →
  (config !! "api_keys" = None
   ∨ ∃ l keys, config !! "api_keys" = Some (VRef l) ∧ σ !! l = Some keys
       ∧ keys !! service = None) →
  get_api_key σ upper getenv get_password _get_cronos_api_key config service
  = Ok VNone.
Proof.
  intros Henv Hring Hconfig. unfold get_api_key.
  assert (from_config σ _get_cronos_api_key config service = Ok VNone) as Hc.
  { unfold from_config, get_or_empty.
    destruct Hconfig as [-> | (l & keys & -> & -> & ->)]; reflexivity. }
  destruct Henv as [-> | ->];
    destruct Hring as [-> | (p & -> & [-> | ->])]; exact Hc.
Qed.

Lemma missing_entry_hides_cronos_witness :
  get_api_key keys_heap (λ s, s) (λ _, None) (λ _ _, KeyringError)
    (λ _, VStr "secret") keys_config "haveibeenpwned"
  = Ok VNone.
Proof.
  apply missing_entry_hides_cronos.
  - by left.
  - by left.
  - right. exists 0, {[ "shodan" := VStr "abc" ]}.
    repeat apply conj; vm_compute; reflexivity.
Defined.

End ConfigTheory.

(** * Feeding a result again *)

Module FeedingAgain.
Import Aggregator Examples AggregatorTheory Notions AggregatorInvariants.

Section Dedup.

Variable key : dict → res string.

Lemma dedup_loop_ext σ1 σ2 items : ∀ seen unique,
  (∀ e, key_of key σ1 e = key_of key σ2 e) →
  dedup_loop key σ1 items seen unique = dedup_loop key σ2 items seen unique.
Proof.
  induction items as [|item rest IH]; intros seen unique Hkey; [done |].
  cbn [dedup_loop]. rewrite Hkey.
  destruct (key_of key σ2 item); [| done].
  case_decide; by apply IH.
Qed.

Lemma dedup_loop_seen σ items : ∀ seen unique,
  Forall (λ e, ∃ k, key_of key σ e = Ok k ∧ k ∈ seen) items →
  dedup_loop key σ items seen unique = Ok unique.
Proof.
  induction items as [|item rest IH]; intros seen unique Hall; [done |].
  apply Forall_cons in Hall as [(k & Hk & Hin) Hall].
  cbn [dedup_loop]. rewrite Hk, decide_True by done. by apply IH.
Qed.

(** Items whose keys have all been met do not change the outcome of the
    loop. *)
Lemma dedup_loop_app_seen σ items more : ∀ seen unique out,
  Forall (λ e, ∃ k, key_of key σ e = Ok k
                 ∧ (k ∈ seen ∨ Ok k ∈ key_of key σ <$> items)) more →
  dedup_loop key σ items seen unique = Ok out →
  dedup_loop key σ (items ++ more) seen unique = Ok out.
Proof.
  induction items as [|item rest IH]; intros seen unique out Hmore.
  - cbn [app dedup_loop]. intros [= <-]. apply dedup_loop_seen.
    eapply Forall_impl; [exact Hmore |].
    intros e (k & Hk & [Hin|Hin]); [by exists k |].
    by apply elem_of_nil in Hin.
  - cbn [app dedup_loop].
    destruct (key_of key σ item) as [k0|] eqn:Hk0; [| done].
    case_decide as Hseen; apply IH.
    + eapply Forall_impl; [exact Hmore |].
      intros e (k & Hk & [Hin|Hin]); exists k; (split; [done |]);
        [by left |].
      rewrite fmap_cons, elem_of_cons in Hin. destruct Hin as [Heq|Hin];
        [left | by right].
      rewrite Hk0 in Heq. by injection Heq as ->.
    + eapply Forall_impl; [exact Hmore |].
      intros e (k & Hk & [Hin|Hin]); exists k; (split; [done |]).
      * left. unfold add. set_solver.
      * rewrite fmap_cons, elem_of_cons in Hin. destruct Hin as [Heq|Hin];
          [left | by right].
        rewrite Hk0 in Heq. injection Heq as ->. unfold add. set_solver.
Qed.

Lemma dedup_loop_again σ items more out :
  more ⊆ items →
  dedup_loop key σ items ∅ [] = Ok out →
  dedup_loop key σ (items ++ more) ∅ [] = Ok out.
Proof.
  intros Hsub Hout. apply dedup_loop_app_seen; [| done].
  pose proof (dedup_loop_keys key σ items ∅ [] out Hout) as Hkeys.
  rewrite Forall_forall in Hkeys. apply Forall_forall. intros e He.
  destruct (Hkeys e (Hsub e He)) as [k Hk]. exists k. split; [done |].
  right. rewrite <- Hk. apply list_elem_of_fmap. exists e.
  split; [done | by apply Hsub].
Qed.

End Dedup.

(** What one pair of a feed contributes is within what the feed adds up
    to. *)
Lemma contribution_in_total σ feed x :
  x ∈ feed →
  let c := contribution σ x in
  let t := total σ feed in
  (∀ k, kind_set k c ⊆ kind_set k t)
  ∧ social_profiles c ⊆ social_profiles t
  ∧ accounts c ⊆ accounts t
  ∧ (∀ key l, sources c !! key = Some l →
       ∃ l', sources t !! key = Some l' ∧ l ⊆ l').
Proof.
  induction feed as [|y feed IH]; [by intros ?%elem_of_nil |].
  intros [->|Hin]%elem_of_cons; cbn zeta; cbn [total foldr].
  - fold (total σ feed). repeat apply conj.
    + intros k. destruct k; cbn; apply union_subseteq_l.
    + cbn. intros e He. apply elem_of_app. by left.
    + cbn. intros e He. apply elem_of_app. by left.
    + intros key l Hl. cbn. unfold munion. rewrite lookup_union_with, Hl.
      destruct (sources (total σ feed) !! key) as [l2|]; cbn;
        eexists; (split; [reflexivity |]); [| done].
      intros n Hn. apply elem_of_app. by left.
  - fold (total σ feed). destruct (IH Hin) as (Hk & Hp & Ha & Hs).
    repeat apply conj.
    + intros k. specialize (Hk k).
      destruct k; cbn in *; by apply union_subseteq_r'.
    + cbn. intros e He. apply elem_of_app. right. by apply Hp.
    + cbn. intros e He. apply elem_of_app. right. by apply Ha.
    + intros key l Hl. destruct (Hs key l Hl) as (l' & Hl' & Hsub).
      cbn. unfold munion. rewrite lookup_union_with, Hl'.
      destruct (sources (contribution σ y) !! key) as [l1|]; cbn;
        eexists; (split; [reflexivity |]); [| done].
      intros n Hn. apply elem_of_app. right. by apply Hsub.
Qed.

Lemma source_count_app_within l l' :
  l ⊆ l' → source_count (l' ++ l) = source_count l'.
Proof.
  intros Hsub. unfold source_count. f_equal.
  rewrite list_to_set_app_L, (comm_L (∪)).
  apply subseteq_union_1_L. intros n Hn.
  apply elem_of_list_to_set in Hn. apply elem_of_list_to_set. by apply Hsub.
Qed.



End FeedingAgain.
